(** * zlib-accel: configuration store, logging helpers and execution-path
      dispatcher

    Shallow embedding of
    - [config/config.h] and [config/config.cpp] (namespace [config]):
      the process-wide option table, [LoadConfigFile], [SetConfig],
      [GetConfig];
    - [logging.h]: [Log], [LogImpl], [GetLogStream],
      [PrintDeflateBlockHeader] (the [DEBUG_LOG] build);
    - [zlib_accel.h]: the [ExecutionPath] enumeration;
    - the path selector and the dispatcher, whose implementation file
      ([zlib_accel.cpp]) is not part of the sources at hand and is therefore
      modelled from the design document.

    Integers are [Z] with the C++ conversions written out, byte buffers are
    [list byte], text is [string], the stream registry is a [gmap]. *)

From Stdlib Require Import ZArith String Ascii List Lia DecimalString.
From Stdlib Require Import Strings.Byte QArith Qcanon.
From stdpp Require Import base numbers gmap strings list fin_maps.

Local Open Scope Z_scope.

(* ===================================================================== *)
(** * Part I: definitions *)
(* ===================================================================== *)

(** ** Integer conversions *)

(** Conversion of an [int] to [uint16_t]: reduction modulo 2^16. *)
Definition to_uint16 (z : Z) : Z := z mod 2 ^ 16.

(** Arithmetic on [uint32_t] wraps modulo 2^32. *)
Definition to_uint32 (z : Z) : Z := z mod 2 ^ 32.

(** ** namespace config *)

Module config.

(** [enum ConfigOption] of config.h.  The last enumerator of the C++
    enumeration, [CONFIG_MAX], is the number of options and the length of
    the [configs] array; it is kept as a number. *)
Inductive ConfigOption : Set :=
  | USE_QAT_COMPRESS
  | USE_QAT_UNCOMPRESS
  | USE_IAA_COMPRESS
  | USE_IAA_UNCOMPRESS
  | USE_ZLIB_COMPRESS
  | USE_ZLIB_UNCOMPRESS
  | IAA_COMPRESS_PERCENTAGE
  | IAA_UNCOMPRESS_PERCENTAGE
  | IAA_PREPEND_EMPTY_BLOCK
  | QAT_PERIODICAL_POLLING
  | QAT_COMPRESSION_LEVEL
  | LOG_LEVEL
  | LOG_STATS_SAMPLES.

Definition CONFIG_MAX : nat := 13.

(** The integer value of an enumerator, used as array index. *)
Definition index (o : ConfigOption) : nat :=
  match o with
  | USE_QAT_COMPRESS => 0
  | USE_QAT_UNCOMPRESS => 1
  | USE_IAA_COMPRESS => 2
  | USE_IAA_UNCOMPRESS => 3
  | USE_ZLIB_COMPRESS => 4
  | USE_ZLIB_UNCOMPRESS => 5
  | IAA_COMPRESS_PERCENTAGE => 6
  | IAA_UNCOMPRESS_PERCENTAGE => 7
  | IAA_PREPEND_EMPTY_BLOCK => 8
  | QAT_PERIODICAL_POLLING => 9
  | QAT_COMPRESSION_LEVEL => 10
  | LOG_LEVEL => 11
  | LOG_STATS_SAMPLES => 12
  end%nat.

Definition all_options : list ConfigOption :=
  [ USE_QAT_COMPRESS; USE_QAT_UNCOMPRESS; USE_IAA_COMPRESS;
    USE_IAA_UNCOMPRESS; USE_ZLIB_COMPRESS; USE_ZLIB_UNCOMPRESS;
    IAA_COMPRESS_PERCENTAGE; IAA_UNCOMPRESS_PERCENTAGE;
    IAA_PREPEND_EMPTY_BLOCK; QAT_PERIODICAL_POLLING; QAT_COMPRESSION_LEVEL;
    LOG_LEVEL; LOG_STATS_SAMPLES ].

(** [const std::string config_names[CONFIG_MAX]] of config.cpp, entry by
    entry in the order of the initialiser. *)
Definition config_names : list string :=
  [ "use_qat_compress";        "use_qat_uncompress";
    "use_iaa_compress";        "use_iaa_uncompress";
    "use_zlib_compress";       "USE_ZLIB_UNCOMPRESS";
    "use_zlib_uncompress";     "iaa_compress_percentage";
    "iaa_prepend_empty_block"; "qat_periodical_polling";
    "qat_compression_level";   "log_level";
    "log_stats_samples" ].

(** [config_names[o]]. *)
Definition config_name (o : ConfigOption) : string :=
  config_names !!! index o.

(** The key under which an option is documented: the lower-case spelling of
    its enumerator (the convention every aligned entry of [config_names]
    follows). *)
Definition documented_key (o : ConfigOption) : string :=
  match o with
  | USE_QAT_COMPRESS => "use_qat_compress"
  | USE_QAT_UNCOMPRESS => "use_qat_uncompress"
  | USE_IAA_COMPRESS => "use_iaa_compress"
  | USE_IAA_UNCOMPRESS => "use_iaa_uncompress"
  | USE_ZLIB_COMPRESS => "use_zlib_compress"
  | USE_ZLIB_UNCOMPRESS => "use_zlib_uncompress"
  | IAA_COMPRESS_PERCENTAGE => "iaa_compress_percentage"
  | IAA_UNCOMPRESS_PERCENTAGE => "iaa_uncompress_percentage"
  | IAA_PREPEND_EMPTY_BLOCK => "iaa_prepend_empty_block"
  | QAT_PERIODICAL_POLLING => "qat_periodical_polling"
  | QAT_COMPRESSION_LEVEL => "qat_compression_level"
  | LOG_LEVEL => "log_level"
  | LOG_STATS_SAMPLES => "log_stats_samples"
  end.

(** The process-wide mutable state of config.cpp: the [uint16_t
    configs[CONFIG_MAX]] array and the [log_file] string. *)
Record Store : Type := mkStore {
  configs : list Z;
  log_file : string
}.

(** [uint16_t configs[CONFIG_MAX] = {1, 1, 0, 0, 1, 1, 50, 50, 0, 0, 1, 2,
    1000}] and [std::string log_file = ""]. *)
Definition default_configs : list Z :=
  [1; 1; 0; 0; 1; 1; 50; 50; 0; 0; 1; 2; 1000].

Definition default_store : Store :=
  {| configs := default_configs; log_file := "" |}.

(** [void SetConfig(ConfigOption option, int value) { configs[option] =
    value; }]: the store converts the [int] to [uint16_t]. *)
Definition SetConfig (option : ConfigOption) (value : Z) (cfg : list Z)
  : list Z :=
  <[index option := to_uint16 value]> cfg.

(** [int GetConfig(ConfigOption option) { return configs[option]; }] *)
Definition GetConfig (option : ConfigOption) (cfg : list Z) : Z :=
  cfg !!! index option.

(** *** The file system, as far as [LoadConfigFile] looks at it *)

(** A configuration file is kept in parsed form: the integers and the
    strings it stores under their keys. *)
Record KeyValueFile : Type := mkKeyValueFile {
  int_values : gmap string Z;
  string_values : gmap string string
}.

(** The errors with which the operating system can fail a status query,
    other than "no such file or directory" ([ENOENT], [ENOTDIR]), which
    the status functions of [std::filesystem] report as "not found" and
    not as an error. *)
Inductive errno : Set := ENAMETOOLONG | ELOOP | EACCES.

(** What following a symbolic link leads to: a file, nothing (a dangling
    link), or an error (a loop of links, say). *)
Inductive LinkTarget : Type :=
  | TargetFile (contents : KeyValueFile)
  | TargetMissing
  | TargetError (e : errno).

(** What a path leads to: a file that is not a link, a symbolic link, or
    a lookup that fails (the name is too long, a directory on the way may
    not be searched).  A path with no entry leads to nothing. *)
Inductive Dirent : Type :=
  | RegularFile (contents : KeyValueFile)
  | SymbolicLink (target : LinkTarget)
  | LookupError (e : errno).

Definition FileSystem : Type := gmap string Dirent.

(** [std::filesystem::filesystem_error], and a call that either returns a
    value or throws. *)
Inductive exception : Set := filesystem_error (e : errno).

Inductive Outcome (A : Type) : Type :=
  | Returns (a : A)
  | Throws (x : exception).
Arguments Returns {A}.
Arguments Throws {A}.

(** [std::filesystem::exists(filePath)], the overload without an
    [error_code]: the status of the path, symbolic links followed; it
    throws when the status query fails. *)
Definition fs_exists (fs : FileSystem) (filePath : string) : Outcome bool :=
  match fs !! filePath with
  | None => Returns false
  | Some (RegularFile _) => Returns true
  | Some (SymbolicLink (TargetFile _)) => Returns true
  | Some (SymbolicLink TargetMissing) => Returns false
  | Some (SymbolicLink (TargetError e)) => Throws (filesystem_error e)
  | Some (LookupError e) => Throws (filesystem_error e)
  end.

(** [std::filesystem::is_symlink(filePath)], the overload without an
    [error_code]: the status of the path itself, a link not followed; it
    throws when the status query fails. *)
Definition fs_is_symlink (fs : FileSystem) (filePath : string)
  : Outcome bool :=
  match fs !! filePath with
  | None => Returns false
  | Some (RegularFile _) => Returns false
  | Some (SymbolicLink _) => Returns true
  | Some (LookupError e) => Throws (filesystem_error e)
  end.

(** A path that names no file: nothing is there, or a link to nothing, or
    a name too long for any file to have. *)
Definition names_no_file (fs : FileSystem) (filePath : string) : Prop :=
  fs !! filePath = None
  \/ fs !! filePath = Some (SymbolicLink TargetMissing)
  \/ fs !! filePath = Some (LookupError ENAMETOOLONG).

(** *** The reader interface

    [class ConfigReader] (config_reader.h) is used by [LoadConfigFile] but
    its definition is not among the sources; it enters as an interface.
    [GetValue r tag value max min] is the content of the reference
    argument [value] after the call [r.GetValue(tag, value, max, min)];
    [GetValueStr] is the string overload. *)
Class ConfigReaderOps (ConfigReader : Type) : Type := {
  ParseFile : FileSystem -> string -> ConfigReader;
  GetValue : ConfigReader -> string -> Z -> Z -> Z -> Z;
  GetValueStr : ConfigReader -> string -> string -> string;
  DumpValues : ConfigReader -> string
}.

Section LoadConfigFile.
Context {ConfigReader : Type} `{!ConfigReaderOps ConfigReader}.

(** One pair of statements of [LoadConfigFile]:
    [configReader.GetValue(config_names[o], value, max, min);
     configs[o] = value;]
    The local [int value] is threaded from one pair to the next. *)
Definition load_option (r : ConfigReader) (o : ConfigOption)
    (max_value min_value : Z) (st : Z * list Z) : Z * list Z :=
  let value := GetValue r (config_name o) (fst st) max_value min_value in
  (value, <[index o := to_uint16 value]> (snd st)).

(** The thirteen pairs, in source order, starting from [int value = 0]. *)
Definition load_all (r : ConfigReader) (cfg : list Z) : Z * list Z :=
  let st := (0, cfg) in
  let st := load_option r USE_QAT_COMPRESS 1 0 st in
  let st := load_option r USE_QAT_UNCOMPRESS 1 0 st in
  let st := load_option r USE_IAA_COMPRESS 1 0 st in
  let st := load_option r USE_IAA_UNCOMPRESS 1 0 st in
  let st := load_option r USE_ZLIB_COMPRESS 1 0 st in
  let st := load_option r USE_ZLIB_UNCOMPRESS 1 0 st in
  let st := load_option r IAA_COMPRESS_PERCENTAGE 100 0 st in
  let st := load_option r IAA_UNCOMPRESS_PERCENTAGE 100 0 st in
  let st := load_option r IAA_PREPEND_EMPTY_BLOCK 1 0 st in
  let st := load_option r QAT_PERIODICAL_POLLING 1 0 st in
  let st := load_option r QAT_COMPRESSION_LEVEL 9 1 st in
  let st := load_option r LOG_LEVEL 2 0 st in
  let st := load_option r LOG_STATS_SAMPLES 1000 0 st in
  st.

(** [bool LoadConfigFile(std::string& file_content, const char*
    filePath)].  The result is how the call ends (the returned flag, or
    the exception of one of the two status queries, which are both made
    before the test), the content of [file_content] after the call and
    the store after the call. *)
Definition LoadConfigFile (fs : FileSystem) (file_content : string)
    (filePath : string) (s : Store) : Outcome bool * string * Store :=
  match fs_exists fs filePath with
  | Throws x => (Throws x, file_content, s)
  | Returns exists_ =>
      match fs_is_symlink fs filePath with
      | Throws x => (Throws x, file_content, s)
      | Returns symlink =>
          if negb exists_ || symlink then (Returns false, file_content, s)
          else
            let configReader := ParseFile fs filePath in
            let st := load_all configReader (configs s) in
            let log_file' :=
              GetValueStr configReader "log_file" (log_file s) in
            (Returns true, file_content +:+ DumpValues configReader,
             {| configs := snd st; log_file := log_file' |})
      end
  end.
End LoadConfigFile.

(** *** A reader to run [LoadConfigFile] on

    [ConfigReader] is defined in config_reader.h and config_reader.cpp,
    which are missing.  The configuration surface of the design document
    is "a file-backed key-value store with named options" holding
    integers and one path string. *)

Definition clamp (min_value max_value v : Z) : Z :=
  Z.max min_value (Z.min max_value v).

(** Modelled from the spec: [ConfigReader::GetValue] with bounds
    (config_reader.cpp is missing).  An integer found under its key is
    brought into the range given by the caller; a key that is absent
    leaves the caller's variable as it was. *)
Definition kv_GetValue (r : KeyValueFile) (tag : string)
    (value max_value min_value : Z) : Z :=
  match int_values r !! tag with
  | Some v => clamp min_value max_value v
  | None => value
  end.

(** Modelled from the spec: the string overload of
    [ConfigReader::GetValue] (config_reader.cpp is missing). *)
Definition kv_GetValueStr (r : KeyValueFile) (tag : string)
    (value : string) : string :=
  match string_values r !! tag with
  | Some v => v
  | None => value
  end.

(** Modelled from the spec: [ConfigReader::ParseFile]
    (config_reader.cpp is missing): the key-value content of the file. *)
Definition kv_ParseFile (fs : FileSystem) (filePath : string)
  : KeyValueFile :=
  match fs !! filePath with
  | Some (RegularFile contents) => contents
  | Some (SymbolicLink (TargetFile contents)) => contents
  | _ => {| int_values := ∅; string_values := ∅ |}
  end.

Definition show_int (z : Z) : string :=
  NilZero.string_of_int (Z.to_int z).

(** Modelled from the spec: [ConfigReader::DumpValues]
    (config_reader.cpp is missing): the integer entries, one after the
    other. *)
Definition kv_DumpValues (r : KeyValueFile) : string :=
  foldr (fun kv acc => fst kv +:+ "=" +:+ show_int (snd kv) +:+ "; " +:+ acc)
        "" (map_to_list (int_values r)).

#[export] Instance kv_reader : ConfigReaderOps KeyValueFile := {|
  ParseFile := kv_ParseFile;
  GetValue := kv_GetValue;
  GetValueStr := kv_GetValueStr;
  DumpValues := kv_DumpValues
|}.

(** A configuration file that sets every documented key, at
    [/etc/zlib-accel.conf] (the default [filePath]). *)
Definition sample_file : KeyValueFile :=
  {| int_values :=
       list_to_map
         [ ("use_qat_compress", 0); ("use_qat_uncompress", 0);
           ("use_iaa_compress", 1); ("use_iaa_uncompress", 1);
           ("use_zlib_compress", 1); ("use_zlib_uncompress", 1);
           ("iaa_compress_percentage", 70);
           ("iaa_uncompress_percentage", 30);
           ("iaa_prepend_empty_block", 0); ("qat_periodical_polling", 0);
           ("qat_compression_level", 5); ("log_level", 1);
           ("log_stats_samples", 500) ];
     string_values := {[ "log_file" := "/tmp/zlib-accel.log" ]} |}.

Definition default_path : string := "/etc/zlib-accel.conf".

Definition sample_fs : FileSystem :=
  {[ default_path := RegularFile sample_file ]}.

(** *** The calls of [LoadConfigFile] as a table

    The thirteen [GetValue] calls of [LoadConfigFile] in source order,
    each with the option whose name and slot it uses and the [max_value]
    and [min_value] arguments it passes. *)
Definition load_plan : list (ConfigOption * Z * Z) :=
  [ (USE_QAT_COMPRESS, 1, 0);
    (USE_QAT_UNCOMPRESS, 1, 0);
    (USE_IAA_COMPRESS, 1, 0);
    (USE_IAA_UNCOMPRESS, 1, 0);
    (USE_ZLIB_COMPRESS, 1, 0);
    (USE_ZLIB_UNCOMPRESS, 1, 0);
    (IAA_COMPRESS_PERCENTAGE, 100, 0);
    (IAA_UNCOMPRESS_PERCENTAGE, 100, 0);
    (IAA_PREPEND_EMPTY_BLOCK, 1, 0);
    (QAT_PERIODICAL_POLLING, 1, 0);
    (QAT_COMPRESSION_LEVEL, 9, 1);
    (LOG_LEVEL, 2, 0);
    (LOG_STATS_SAMPLES, 1000, 0) ].

Section ReadValues.
Context {ConfigReader : Type} `{!ConfigReaderOps ConfigReader}.

(** The content of the local [int value] after each call of a plan, the
    variable being [value] before the first one. *)
Fixpoint read_values (r : ConfigReader) (plan : list (ConfigOption * Z * Z))
    (value : Z) : list Z :=
  match plan with
  | [] => []
  | (o, max_value, min_value) :: rest =>
      let value' := GetValue r (config_name o) value max_value min_value in
      value' :: read_values r rest value'
  end.
End ReadValues.

(** A regular file that stores nothing, and a symbolic link, next to the
    sample file. *)
Definition empty_file : KeyValueFile :=
  {| int_values := ∅; string_values := ∅ |}.

Definition other_fs : FileSystem :=
  {[ "/etc/empty.conf" := RegularFile empty_file;
     "/etc/link.conf" := SymbolicLink (TargetFile sample_file) ]}.

(** A path of 301 characters, one name longer than any file name may be,
    and a file system that fails its lookup accordingly. *)
Fixpoint repeat_char (a : ascii) (n : nat) : string :=
  match n with
  | O => EmptyString
  | S n' => String a (repeat_char a n')
  end.

Definition long_path : string := "/" +:+ repeat_char "a"%char 300.

Definition long_name_fs : FileSystem :=
  {[ default_path := RegularFile sample_file;
     long_path := LookupError ENAMETOOLONG ]}.

End config.


(** ** logging.h *)

Module logging.
Import config.

(** [enum class LogLevel { LOG_NONE = 0, LOG_INFO = 1, LOG_ERROR = 2 }] *)
Inductive LogLevel : Set := LOG_NONE | LOG_INFO | LOG_ERROR.

#[export] Instance LogLevel_eq_dec : EqDecision LogLevel.
Proof. solve_decision. Defined.

(** [static_cast<uint32_t>(level)] *)
Definition level_value (level : LogLevel) : Z :=
  match level with
  | LOG_NONE => 0
  | LOG_INFO => 1
  | LOG_ERROR => 2
  end.

(** [std::unique_ptr<std::ofstream> log_file_stream]: an open or closed
    file stream with what has been written to it. *)
Record ofstream : Type := mkOfstream {
  is_open : bool;
  written : string
}.

(** The state the logging functions run in: the option table they read,
    and the two sinks, [log_file_stream] and [std::cout]. *)
Record LogEnv : Type := mkLogEnv {
  env_configs : list Z;
  log_file_stream : option ofstream;
  cout : string
}.

(** [GetLogStream()]: the file stream when there is one and it is open,
    [std::cout] otherwise.  [GetLogStream] reads what the selected stream
    holds and [put_stream] stores what it holds after insertions. *)
Definition GetLogStream (env : LogEnv) : string :=
  match log_file_stream env with
  | Some f => if is_open f then written f else cout env
  | None => cout env
  end.

Definition put_stream (env : LogEnv) (text : string) : LogEnv :=
  match log_file_stream env with
  | Some f =>
      if is_open f
      then {| env_configs := env_configs env;
              log_file_stream := Some {| is_open := true; written := text |};
              cout := cout env |}
      else {| env_configs := env_configs env;
              log_file_stream := log_file_stream env;
              cout := text |}
  | None => {| env_configs := env_configs env;
               log_file_stream := None;
               cout := text |}
  end.

(** The arguments handed to the variadic templates.  An argument counts
    by what [<<] writes for it: an integer is written in decimal, and
    [Text] stands for a string and for any other streamable value through
    the characters it is written as. *)
Inductive LogArg : Type :=
  | Text (s : string)
  | Int (z : Z).

(** [stream << arg] renders an integer in decimal. *)
Definition show (a : LogArg) : string :=
  match a with
  | Text s => s
  | Int z => show_int z
  end.

(** The string literal of one line feed, and [std::endl], which writes
    one. *)
Definition newline : string := String "010"%char EmptyString.

Definition endl : string := newline.

(** [LogImpl(stream)] writes [std::endl]; [LogImpl(stream, first,
    rest...)] writes [first] and recurses on [rest]. *)
Fixpoint LogImpl (stream : string) (args : list LogArg) : string :=
  match args with
  | [] => stream +:+ endl
  | first :: rest => LogImpl (stream +:+ show first) rest
  end.

(** [Log(level, args...)] in the [DEBUG_LOG] build (without [DEBUG_LOG]
    the body is empty). *)
Definition Log (level : LogLevel) (args : list LogArg) (env : LogEnv)
  : LogEnv :=
  if level_value level <? GetConfig LOG_LEVEL (env_configs env) then env
  else
    let stream := GetLogStream env in
    match level with
    | LOG_ERROR => put_stream env (LogImpl (stream +:+ "Error: ") args)
    | LOG_INFO => put_stream env (LogImpl (stream +:+ "Info: ") args)
    | LOG_NONE => env
    end.

(** What a call that passes the level test appends to the stream: the
    prefix of the level, the arguments in order, and [std::endl]. *)
Definition prefix_of (level : LogLevel) : string :=
  match level with
  | LOG_ERROR => "Error: "
  | LOG_INFO => "Info: "
  | LOG_NONE => ""
  end.

Fixpoint render (args : list LogArg) : string :=
  match args with
  | [] => ""
  | a :: rest => show a +:+ render rest
  end.

Definition line (level : LogLevel) (args : list LogArg) : string :=
  prefix_of level +:+ render args +:+ endl.

(** [CreateLogFile(file_name)]: [log_file_stream] becomes a fresh stream
    on [file_name], opened for appending.  Whether the open succeeds is
    the operating system's answer, [opens file_name]; nothing has been
    written through the new stream yet. *)
Definition CreateLogFile (opens : string -> bool) (file_name : string)
    (env : LogEnv) : LogEnv :=
  {| env_configs := env_configs env;
     log_file_stream :=
       Some {| is_open := opens file_name; written := "" |};
     cout := cout env |}.

(** [CloseLogFile()]: [log_file_stream.reset()]. *)
Definition CloseLogFile (env : LogEnv) : LogEnv :=
  {| env_configs := env_configs env;
     log_file_stream := None;
     cout := cout env |}.

(** [LogStats(args...)] in the [ENABLE_STATISTICS] build. *)
Definition LogStats (args : list LogArg) (env : LogEnv) : LogEnv :=
  let stream := GetLogStream env in
  put_stream env (LogImpl (stream +:+ "Stats:" +:+ newline) args).

(** What one call [Log(level, args...)] adds to the stream under an option
    table: its line, or nothing. *)
Definition emitted (cfg : list Z) (level : LogLevel) (args : list LogArg)
  : string :=
  if level_value level <? GetConfig LOG_LEVEL cfg then ""
  else match level with
       | LOG_NONE => ""
       | _ => line level args
       end.

(** A sequence of [Log] calls, in order, and what they add together. *)
Definition Log_all (msgs : list (LogLevel * list LogArg)) (env : LogEnv)
  : LogEnv :=
  foldl (fun e m => Log (fst m) (snd m) e) env msgs.

Definition transcript (cfg : list Z) (msgs : list (LogLevel * list LogArg))
  : string :=
  foldr (fun m acc => emitted cfg (fst m) (snd m) +:+ acc) "" msgs.

(** [GetCompressedFormat] and [GetHeaderLength] are declared in utils.h,
    which is not among the sources; they enter as an interface, together
    with the [CompressedFormat] enumeration. *)
Class HeaderFormat (CompressedFormat : Type) : Type := {
  GetCompressedFormat : Z -> CompressedFormat;
  GetHeaderLength : CompressedFormat -> Z
}.

(** [data[i]] promoted to [int]; a read past the end of the buffer has no
    defined value in C++ and is given 0 here. *)
Definition byte_at (data : list byte) (i : Z) : Z :=
  match data !! Z.to_nat i with
  | Some b => Z.of_N (Byte.to_N b)
  | None => 0
  end.

(** [data[header_length] & 0b00000001] *)
Definition bfinal_of (b : Z) : Z := Z.land b 1.

(** [(data[header_length] & 0b00000110) >> 1] *)
Definition btype_of (b : Z) : Z := Z.shiftr (Z.land b 6) 1.

Section PrintDeflateBlockHeader.
Context {CompressedFormat : Type} `{!HeaderFormat CompressedFormat}.

(** The argument list [PrintDeflateBlockHeader] passes on to [Log]. *)
Definition header_message (data : list byte) (header_length : Z)
    (args : list LogArg) : list LogArg :=
  [ Text "Deflate block header bfinal=";
    Int (bfinal_of (byte_at data header_length));
    Text ", btype=";
    Int (btype_of (byte_at data header_length));
    Text newline ] ++ args.

(** [PrintDeflateBlockHeader(level, data, len, window_bits, args...)] in
    the [DEBUG_LOG] build.  [data] is a pointer to a buffer the function
    could write to, so the buffer is returned next to the environment;
    [len] is a [uint32_t] and [header_length + 1] is computed in
    [uint32_t]. *)
Definition PrintDeflateBlockHeader (level : LogLevel) (data : list byte)
    (len : Z) (window_bits : Z) (args : list LogArg) (env : LogEnv)
  : LogEnv * list byte :=
  if level_value level <? GetConfig LOG_LEVEL (env_configs env)
  then (env, data)
  else
    let format := GetCompressedFormat window_bits in
    let header_length := to_uint32 (GetHeaderLength format) in
    if len >=? to_uint32 (header_length + 1)
    then (Log level (header_message data header_length args) env, data)
    else (env, data).
End PrintDeflateBlockHeader.

(** A header-format instance to run the function on: raw deflate for
    negative window bits (no header), a two-byte zlib header up to 15, a
    ten-byte gzip header above. *)
Inductive SampleFormat : Set := RawDeflate | ZlibWrapped | GzipWrapped.

#[export] Instance sample_format : HeaderFormat SampleFormat := {|
  GetCompressedFormat := fun window_bits =>
    if window_bits <? 0 then RawDeflate
    else if window_bits <=? 15 then ZlibWrapped else GzipWrapped;
  GetHeaderLength := fun format =>
    match format with
    | RawDeflate => 0
    | ZlibWrapped => 2
    | GzipWrapped => 10
    end
|}.

Definition sample_env (level : Z) : LogEnv :=
  {| env_configs := SetConfig LOG_LEVEL level default_configs;
     log_file_stream := Some {| is_open := true; written := "" |};
     cout := "" |}.

End logging.

(** ** zlib_accel.h: the public option tags *)

Module zlib_accel.

(** [enum ConfigTag] of zlib_accel.h, the tags of
    [zlib_accel_set_config]. *)
Inductive ConfigTag : Set :=
  | USE_IAA_COMPRESS
  | USE_IAA_UNCOMPRESS
  | USE_QAT_COMPRESS
  | USE_QAT_UNCOMPRESS
  | USE_ZLIB_COMPRESS
  | USE_ZLIB_UNCOMPRESS
  | IAA_PREPEND_EMPTY_BLOCK
  | LOG_LEVEL.

(** The integer value of a tag. *)
Definition tag_value (t : ConfigTag) : nat :=
  match t with
  | USE_IAA_COMPRESS => 0
  | USE_IAA_UNCOMPRESS => 1
  | USE_QAT_COMPRESS => 2
  | USE_QAT_UNCOMPRESS => 3
  | USE_ZLIB_COMPRESS => 4
  | USE_ZLIB_UNCOMPRESS => 5
  | IAA_PREPEND_EMPTY_BLOCK => 6
  | LOG_LEVEL => 7
  end%nat.

(** The enumerator of [config::ConfigOption] that has the name of the
    tag. *)
Definition same_named_option (t : ConfigTag) : config.ConfigOption :=
  match t with
  | USE_IAA_COMPRESS => config.USE_IAA_COMPRESS
  | USE_IAA_UNCOMPRESS => config.USE_IAA_UNCOMPRESS
  | USE_QAT_COMPRESS => config.USE_QAT_COMPRESS
  | USE_QAT_UNCOMPRESS => config.USE_QAT_UNCOMPRESS
  | USE_ZLIB_COMPRESS => config.USE_ZLIB_COMPRESS
  | USE_ZLIB_UNCOMPRESS => config.USE_ZLIB_UNCOMPRESS
  | IAA_PREPEND_EMPTY_BLOCK => config.IAA_PREPEND_EMPTY_BLOCK
  | LOG_LEVEL => config.LOG_LEVEL
  end.

End zlib_accel.

(** ** The execution-path dispatcher *)

Module dispatcher.
Import config.

(** [enum ExecutionPath { UNDEFINED, ZLIB, QAT, IAA }] of zlib_accel.h. *)
Inductive ExecutionPath : Set := UNDEFINED | ZLIB | QAT | IAA.

#[export] Instance ExecutionPath_eq_dec : EqDecision ExecutionPath.
Proof. solve_decision. Defined.

(** Modelled from the spec: the [direction] of a stream (data model);
    zlib_accel.cpp is missing. *)
Inductive Direction : Set := Compress | Decompress.

(** Modelled from the spec: the Configuration Snapshot (data model, "an
    immutable read of the Config Store taken at path-selection time"); the
    code that takes it is in zlib_accel.cpp, which is missing.  Enable
    flags per backend and direction, the IAA percentage per direction, the
    priming flag and the QAT polling flag. *)
Record ConfigSnapshot : Type := mkSnapshot {
  qat_enabled : Direction -> bool;
  iaa_enabled : Direction -> bool;
  zlib_enabled : Direction -> bool;
  iaa_percentage : Direction -> Z;
  prepend_empty_block : bool;
  periodical_polling : bool
}.

Definition flag (o : ConfigOption) (cfg : list Z) : bool :=
  negb (GetConfig o cfg =? 0).

Definition by_direction {A} (d : Direction) (c u : A) : A :=
  match d with Compress => c | Decompress => u end.

(** Modelled from the spec: reading the snapshot off the option table of
    config.h (zlib_accel.cpp is missing). *)
Definition snapshot (cfg : list Z) : ConfigSnapshot :=
  {| qat_enabled := fun d =>
       flag (by_direction d USE_QAT_COMPRESS USE_QAT_UNCOMPRESS) cfg;
     iaa_enabled := fun d =>
       flag (by_direction d USE_IAA_COMPRESS USE_IAA_UNCOMPRESS) cfg;
     zlib_enabled := fun d =>
       flag (by_direction d USE_ZLIB_COMPRESS USE_ZLIB_UNCOMPRESS) cfg;
     iaa_percentage := fun d =>
       GetConfig
         (by_direction d IAA_COMPRESS_PERCENTAGE IAA_UNCOMPRESS_PERCENTAGE)
         cfg;
     prepend_empty_block := flag IAA_PREPEND_EMPTY_BLOCK cfg;
     periodical_polling := flag QAT_PERIODICAL_POLLING cfg |}.

(** Modelled from the spec: the "percentage threshold" that section 4.1
    compares the draw from [0,1) with, the configured percentage as a
    fraction of 1. *)
Definition threshold (direction : Direction) (s : ConfigSnapshot) : Qc :=
  (Qc_of_Z (iaa_percentage s direction) / Qc_of_Z 100)%Qc.

(** Modelled from the spec: the Path Selector [select(direction,
    config_snapshot, random_draw)] of section 4.1 (zlib_accel.cpp is
    missing).  First matching rule wins: QAT when enabled; else, when IAA
    is enabled, IAA for a draw below the threshold and Zlib for the
    remainder; else Zlib when enabled; else Undefined. *)
Definition select (direction : Direction) (config_snapshot : ConfigSnapshot)
    (random_draw : Qc) : ExecutionPath :=
  if qat_enabled config_snapshot direction then QAT
  else if iaa_enabled config_snapshot direction then
    if bool_decide (random_draw < threshold direction config_snapshot)%Qc
    then IAA else ZLIB
  else if zlib_enabled config_snapshot direction then ZLIB
  else UNDEFINED.

(** Modelled from the spec: the status vocabulary of the Backend Adapters
    (section 2) and of the public call surface (section 6), with the
    configuration error of section 4.3, step 2. *)
Inductive BackendStatus : Set := OK | STREAM_END | NEED_MORE_OUTPUT | ERROR.

Inductive Status : Set :=
  | Z_OK | Z_STREAM_END | Z_BUF_ERROR | Z_ERROR | Z_CONFIG_ERROR.

#[export] Instance Status_eq_dec : EqDecision Status.
Proof. solve_decision. Defined.

(** Modelled from the spec: what one [step] of a backend reports
    (section 2): input bytes consumed, output bytes produced, a status;
    and the handle's state afterwards. *)
Record StepResult (Handle : Type) : Type := mkStepResult {
  consumed : nat;
  produced : list byte;
  step_status : BackendStatus;
  next_handle : Handle
}.
Arguments mkStepResult {Handle}.
Arguments consumed {Handle}.
Arguments produced {Handle}.
Arguments step_status {Handle}.
Arguments next_handle {Handle}.

(** Modelled from the spec: the uniform capability of the Backend Adapters
    (section 2): [init(direction, params) -> handle] and [step(handle,
    input, output) -> {consumed, produced, status}], one per path;
    [step] is given the available input and the free output space.
    [prime] is the zero-length synthetic block submission of section 4.3,
    step 3.  [end(handle)] only releases the handle and has no counterpart
    here. *)
Class BackendAdapter (Handle : Type) : Type := {
  init : ExecutionPath -> Direction -> Handle;
  step : ExecutionPath -> Handle -> list byte -> nat -> StepResult Handle;
  prime : Handle -> Handle
}.

(** Modelled from the spec: the Execution Path Record of the data model. *)
Record PathRecord (Handle : Type) : Type := mkPathRecord {
  direction : Direction;
  chosen_path : ExecutionPath;
  backend_handle : Handle;
  fallback_occurred : bool;
  bytes_in : nat;
  bytes_out : nat;
  first_block_seen : bool
}.
Arguments mkPathRecord {Handle}.
Arguments direction {Handle}.
Arguments chosen_path {Handle}.
Arguments backend_handle {Handle}.
Arguments fallback_occurred {Handle}.
Arguments bytes_in {Handle}.
Arguments bytes_out {Handle}.
Arguments first_block_seen {Handle}.

(** Modelled from the spec: the arguments of one processing call
    [process(identity, direction, input_buffer, output_buffer)] of section
    4.3, with the configuration and the random draw it may consult. *)
Record Call : Type := mkCall {
  identity : Z;
  call_direction : Direction;
  input_buffer : list byte;
  output_space : nat;
  config_snapshot : ConfigSnapshot;
  random_draw : Qc
}.

(** Modelled from the spec: what a processing call leaves behind: the
    status, the number of input bytes consumed, the bytes written to the
    output buffer and the Stream Registry (section 4.2). *)
Record Outcome (Handle : Type) : Type := mkOutcome {
  status : Status;
  bytes_consumed : nat;
  output : list byte;
  registry : gmap Z (PathRecord Handle)
}.
Arguments mkOutcome {Handle}.
Arguments status {Handle}.
Arguments bytes_consumed {Handle}.
Arguments output {Handle}.
Arguments registry {Handle}.

(** Modelled from the spec: QAT and IAA are the hardware backends. *)
Definition is_hardware (p : ExecutionPath) : bool :=
  match p with
  | QAT | IAA => true
  | UNDEFINED | ZLIB => false
  end.

(** Modelled from the spec: step 5 of section 4.3.  OK is partial
    progress, STREAM_END terminal success, NEED_MORE_OUTPUT asks for more
    output space, and an ERROR that is not recovered is surfaced as an
    error status. *)
Definition map_status (s : BackendStatus) : Status :=
  match s with
  | OK => Z_OK
  | STREAM_END => Z_STREAM_END
  | NEED_MORE_OUTPUT => Z_BUF_ERROR
  | ERROR => Z_ERROR
  end.

Section Dispatcher.
Context {Handle : Type} `{!BackendAdapter Handle}.

(** Modelled from the spec: section 4.3, steps 1 and 3, for a stream with
    no record: path selection, backend [init], and priming of an IAA
    stream when configured.  No record (and no handle) is made when no
    backend is enabled. *)
Definition new_record (c : Call) : option (PathRecord Handle) :=
  match select (call_direction c) (config_snapshot c) (random_draw c) with
  | UNDEFINED => None
  | path =>
      let h := init path (call_direction c) in
      let h :=
        if bool_decide (path = IAA) && prepend_empty_block (config_snapshot c)
        then prime h else h in
      Some {| direction := call_direction c;
              chosen_path := path;
              backend_handle := h;
              fallback_occurred := false;
              bytes_in := 0;
              bytes_out := 0;
              first_block_seen := false |}
  end.

(** Modelled from the spec: section 4.3, step 1: resolve the record of
    the stream, or create it. *)
Definition resolve (reg : gmap Z (PathRecord Handle)) (c : Call)
  : option (PathRecord Handle) :=
  match reg !! identity c with
  | Some r => Some r
  | None => new_record c
  end.

(** Modelled from the spec: section 4.3, step 7: the byte counters, and
    the first-block flag of Diagnostics (section 4.4); the log and
    statistics sinks are side channels. *)
Definition account (r : PathRecord Handle) (path : ExecutionPath)
    (h : Handle) (fell_back : bool) (n_in : nat) (out : list byte)
  : PathRecord Handle :=
  {| direction := direction r;
     chosen_path := path;
     backend_handle := h;
     fallback_occurred := fallback_occurred r || fell_back;
     bytes_in := bytes_in r + n_in;
     bytes_out := bytes_out r + length out;
     first_block_seen :=
       first_block_seen r || negb (bool_decide (out = [])) |}.

(** Modelled from the spec: section 4.3, step 6.  The hardware attempt
    [hw] reported ERROR: the record is rebound to Zlib with a fresh
    software handle and the step is replayed on the input that follows the
    bytes the hardware consumed, writing after the bytes it produced. *)
Definition fallback (c : Call) (r : PathRecord Handle)
    (hw : StepResult Handle) : Status * nat * list byte * PathRecord Handle :=
  let h := init ZLIB (direction r) in
  let sw := step ZLIB h (drop (consumed hw) (input_buffer c))
                 (output_space c - length (produced hw))%nat in
  let n_in := (consumed hw + consumed sw)%nat in
  let out := produced hw ++ produced sw in
  (map_status (step_status sw), n_in, out,
   account r ZLIB (next_handle sw) true n_in out).

(** Modelled from the spec: section 4.3, steps 4 to 7 on a bound record. *)
Definition dispatch (c : Call) (r : PathRecord Handle)
  : Status * nat * list byte * PathRecord Handle :=
  let res := step (chosen_path r) (backend_handle r) (input_buffer c)
                  (output_space c) in
  match step_status res with
  | ERROR =>
      if is_hardware (chosen_path r) && negb (fallback_occurred r)
      then fallback c r res
      else (Z_ERROR, consumed res, produced res,
            account r (chosen_path r) (next_handle res) false
                    (consumed res) (produced res))
  | s => (map_status s, consumed res, produced res,
          account r (chosen_path r) (next_handle res) false
                  (consumed res) (produced res))
  end.

(** Modelled from the spec: the Dispatcher's [process] of section 4.3
    (zlib_accel.cpp is missing).  A configuration error leaves the
    registry as it is (section 7: no partial state is created).  The
    failed state after a terminal error is the backend handle's. *)
Definition process (reg : gmap Z (PathRecord Handle)) (c : Call)
  : Outcome Handle :=
  match resolve reg c with
  | None =>
      {| status := Z_CONFIG_ERROR; bytes_consumed := 0; output := [];
         registry := reg |}
  | Some r =>
      match chosen_path r with
      | UNDEFINED =>
          {| status := Z_CONFIG_ERROR; bytes_consumed := 0; output := [];
             registry := reg |}
      | _ =>
          let '(st, n_in, out, r') := dispatch c r in
          {| status := st; bytes_consumed := n_in; output := out;
             registry := <[identity c := r']> reg |}
      end
  end.

(** Modelled from the spec: section 4.3, step 8, the stream-end entry
    point: the record is removed. *)
Definition stream_end (reg : gmap Z (PathRecord Handle)) (id : Z)
  : gmap Z (PathRecord Handle) :=
  delete id reg.

(** Modelled from the spec: introspection (section 6;
    [zlib_accel_get_deflate_execution_path] and its inflate twin are
    declared in zlib_accel.h and defined in the missing zlib_accel.cpp):
    the path of a stream, [UNDEFINED] when the stream is unknown or not
    yet bound. *)
Definition get_execution_path (reg : gmap Z (PathRecord Handle)) (id : Z)
  : ExecutionPath :=
  match reg !! id with
  | Some r => chosen_path r
  | None => UNDEFINED
  end.

Definition fallen_back (reg : gmap Z (PathRecord Handle)) (id : Z) : bool :=
  match reg !! id with
  | Some r => fallback_occurred r
  | None => false
  end.

(** A sequence of processing calls, on any streams, in order. *)
Fixpoint run (reg : gmap Z (PathRecord Handle)) (calls : list Call)
  : gmap Z (PathRecord Handle) :=
  match calls with
  | [] => reg
  | c :: rest => run (registry (process reg c)) rest
  end.

(** The number of calls of a sequence at which stream [id] falls back. *)
Fixpoint fallback_count (id : Z) (reg : gmap Z (PathRecord Handle))
    (calls : list Call) : nat :=
  match calls with
  | [] => 0
  | c :: rest =>
      let reg' := registry (process reg c) in
      ((if negb (fallen_back reg id) && fallen_back reg' id then 1 else 0)
       + fallback_count id reg' rest)%nat
  end.
End Dispatcher.

(** *** A software-only test double for the three backends

    The handle counts the steps taken.  Every backend copies its input to
    the output as far as the space allows; the QAT double gives up with
    ERROR after the first byte of any input longer than two bytes. *)
Definition copy_step (h : nat) (input : list byte) (space : nat)
  : StepResult nat :=
  {| consumed := Nat.min (length input) space;
     produced := take space input;
     step_status :=
       if bool_decide (length input ≤ space)%nat
       then (if bool_decide (input = []) then STREAM_END else OK)
       else NEED_MORE_OUTPUT;
     next_handle := S h |}.

Definition failing_step (h : nat) (input : list byte) (space : nat)
  : StepResult nat :=
  if bool_decide (2 < length input)%nat
  then {| consumed := 1; produced := take 1 input; step_status := ERROR;
          next_handle := S h |}
  else copy_step h input space.

#[export] Instance test_double : BackendAdapter nat := {|
  init := fun _ _ => 0%nat;
  step := fun path =>
    match path with
    | QAT => failing_step
    | _ => copy_step
    end;
  prime := fun h => h
|}.

Definition qat_only : ConfigSnapshot :=
  snapshot (SetConfig USE_ZLIB_COMPRESS 0 default_configs).

Definition nothing_enabled : ConfigSnapshot :=
  snapshot [0; 0; 0; 0; 0; 0; 50; 50; 0; 0; 1; 2; 1000].

Definition sample_call (cfg : ConfigSnapshot) : Call :=
  {| identity := 7;
     call_direction := Compress;
     input_buffer := [x61; x62; x63; x64];
     output_space := 16;
     config_snapshot := cfg;
     random_draw := 0%Qc |}.

(** The record the first call on stream 7 creates when only QAT is
    enabled. *)
Definition qat_record : PathRecord nat :=
  {| direction := Compress; chosen_path := QAT; backend_handle := 0%nat;
     fallback_occurred := false; bytes_in := 0; bytes_out := 0;
     first_block_seen := false |}.

End dispatcher.

(* ===================================================================== *)
(** * Part II: properties *)
(* ===================================================================== *)

(** ** The option table *)

Section ConfigStore.
Import config.

Lemma to_uint16_range (z : Z) : 0 <= to_uint16 z < 2 ^ 16.
Proof. unfold to_uint16. apply Z.mod_pos_bound. lia. Qed.

Lemma to_uint16_small (z : Z) : 0 <= z < 2 ^ 16 -> to_uint16 z = z.
Proof. intros Hz. unfold to_uint16. now apply Z.mod_small. Qed.

Lemma index_lt_CONFIG_MAX (o : ConfigOption) : (index o < CONFIG_MAX)%nat.
Proof. destruct o; unfold CONFIG_MAX; simpl; lia. Qed.

Lemma index_inj (o1 o2 : ConfigOption) : index o1 = index o2 -> o1 = o2.
Proof.
  destruct o1, o2; simpl; intros H; first [reflexivity | discriminate H].
Qed.

Lemma SetConfig_length (o : ConfigOption) (v : Z) (cfg : list Z) :
  length (SetConfig o v cfg) = length cfg.
Proof. unfold SetConfig. apply length_insert. Qed.

Lemma GetConfig_SetConfig_eq (o : ConfigOption) (v : Z) (cfg : list Z) :
  length cfg = CONFIG_MAX ->
  GetConfig o (SetConfig o v cfg) = to_uint16 v.
Proof.
  intros Hlen. unfold GetConfig, SetConfig.
  apply list_lookup_total_insert_eq.
  rewrite Hlen. apply index_lt_CONFIG_MAX.
Qed.

Lemma GetConfig_SetConfig_ne (o o' : ConfigOption) (v : Z) (cfg : list Z) :
  o <> o' -> GetConfig o' (SetConfig o v cfg) = GetConfig o' cfg.
Proof.
  intros Hne. unfold GetConfig, SetConfig.
  apply list_lookup_total_insert_ne.
  intros Heq. apply Hne. now apply index_inj.
Qed.

(** C9.  On an option table of [CONFIG_MAX] entries, [GetConfig o] after
    [SetConfig o v] returns [v] reduced modulo 2^16, for every option and
    every integer [v]: the result always lies in 0..65535, a value in that
    interval is stored as it is whatever the option's documented range
    (no validation), and a value outside it, negative ones included, is
    stored truncated, never refused. *)
Theorem GetConfig_SetConfig_mod_2_16 (cfg : list Z) (o : ConfigOption)
    (v : Z) :
  length cfg = CONFIG_MAX ->
  GetConfig o (SetConfig o v cfg) = v mod 2 ^ 16
  /\ 0 <= GetConfig o (SetConfig o v cfg) <= 65535
  /\ (0 <= v <= 65535 -> GetConfig o (SetConfig o v cfg) = v)
  /\ (v < 0 \/ 65535 < v -> GetConfig o (SetConfig o v cfg) <> v)
  /\ length (SetConfig o v cfg) = CONFIG_MAX.
Proof.
  intros Hlen.
  rewrite (GetConfig_SetConfig_eq o v cfg Hlen).
  pose proof (to_uint16_range v) as Hr.
  change (2 ^ 16) with 65536 in *.
  split; [reflexivity |].
  split; [lia |].
  split; [| split].
  - intros Hv. apply to_uint16_small. change (2 ^ 16) with 65536. lia.
  - intros Hv Heq. lia.
  - now rewrite SetConfig_length.
Qed.

(** [SetConfig(LOG_LEVEL, -1)] on the default table: [GetConfig] answers
    65535. *)
Lemma GetConfig_SetConfig_minus_one :
  length default_configs = CONFIG_MAX
  /\ GetConfig LOG_LEVEL (SetConfig LOG_LEVEL (-1) default_configs)
     = (-1) mod 2 ^ 16
  /\ (-1) mod 2 ^ 16 = 65535.
Proof.
  split; [reflexivity |].
  split; [| reflexivity].
  apply (GetConfig_SetConfig_mod_2_16 default_configs LOG_LEVEL (-1)).
  reflexivity.
Defined.

End ConfigStore.

(** ** Loading the configuration file *)

Section LoadConfigFileFacts.
Import config.
Context {ConfigReader : Type} `{!ConfigReaderOps ConfigReader}.

(** C2 (amended).  When [filePath] names no file, [LoadConfigFile] leaves
    the store as it was: no entry of [configs] is written and [log_file]
    (and the caller's [file_content]) keep their content, so a store at
    its defaults stays at its defaults.  It returns [false] when the
    status query finds nothing (no entry, or a link to nothing); when the
    query itself fails, on a name that is too long, the call does not
    return: it throws [filesystem_error]. *)
Theorem LoadConfigFile_missing_file (fs : FileSystem)
    (file_content filePath : string) (s : Store) :
  names_no_file fs filePath ->
  (fs !! filePath <> Some (LookupError ENAMETOOLONG) ->
   LoadConfigFile fs file_content filePath s
   = (Returns false, file_content, s))
  /\ (fs !! filePath = Some (LookupError ENAMETOOLONG) ->
      LoadConfigFile fs file_content filePath s
      = (Throws (filesystem_error ENAMETOOLONG), file_content, s)).
Proof.
  intros [Hnone | [Hlink | Hlong]]; unfold LoadConfigFile, fs_exists,
    fs_is_symlink.
  - rewrite Hnone. split; [reflexivity | intros H; discriminate H].
  - rewrite Hlink. split; [reflexivity | intros H; discriminate H].
  - rewrite Hlong. split; [intros H; now contradict H | reflexivity].
Qed.

(** A symbolic link whose status queries succeed is refused. *)
Lemma LoadConfigFile_symlink (fs : FileSystem)
    (file_content filePath : string) (s : Store) (b : bool) :
  fs_exists fs filePath = Returns b ->
  fs_is_symlink fs filePath = Returns true ->
  LoadConfigFile fs file_content filePath s
  = (Returns false, file_content, s).
Proof.
  intros Hex Hsym. unfold LoadConfigFile. rewrite Hex, Hsym.
  now rewrite orb_true_r.
Qed.

(** The key a slot is loaded from is the entry of [config_names] at the
    option's index, whatever the reader does. *)
Lemma load_option_slot (r : ConfigReader) (o : ConfigOption)
    (max_value min_value : Z) (st : Z * list Z) :
  length (snd st) = CONFIG_MAX ->
  GetConfig o (snd (load_option r o max_value min_value st))
  = to_uint16 (GetValue r (config_name o) (fst st) max_value min_value).
Proof.
  intros Hlen. unfold load_option, GetConfig. simpl.
  apply list_lookup_total_insert_eq.
  rewrite Hlen. apply index_lt_CONFIG_MAX.
Qed.

Lemma load_option_other (r : ConfigReader) (o o' : ConfigOption)
    (max_value min_value : Z) (st : Z * list Z) :
  o <> o' ->
  GetConfig o' (snd (load_option r o max_value min_value st))
  = GetConfig o' (snd st).
Proof.
  intros Hne. unfold load_option, GetConfig. simpl.
  apply list_lookup_total_insert_ne.
  intros Heq. apply Hne. now apply index_inj.
Qed.

Lemma load_option_length (r : ConfigReader) (o : ConfigOption)
    (max_value min_value : Z) (st : Z * list Z) :
  length (snd (load_option r o max_value min_value st)) = length (snd st).
Proof. unfold load_option. simpl. apply length_insert. Qed.

(** For any reader: the slot of [IAA_UNCOMPRESS_PERCENTAGE] is loaded from
    the key [iaa_compress_percentage], and the slot of
    [IAA_COMPRESS_PERCENTAGE] from the key [use_zlib_uncompress]. *)
Lemma load_all_percentage_slots (r : ConfigReader) (cfg : list Z) :
  length cfg = CONFIG_MAX ->
  (exists v, GetConfig IAA_COMPRESS_PERCENTAGE (snd (load_all r cfg))
             = to_uint16 (GetValue r "use_zlib_uncompress" v 100 0))
  /\ (exists v, GetConfig IAA_UNCOMPRESS_PERCENTAGE (snd (load_all r cfg))
                = to_uint16 (GetValue r "iaa_compress_percentage" v 100 0)).
Proof.
  intros Hlen. unfold load_all.
  split; eexists;
    repeat (rewrite load_option_other by discriminate);
    (rewrite load_option_slot
       by (repeat rewrite load_option_length; exact Hlen));
    reflexivity.
Qed.

End LoadConfigFileFacts.

Section LoadConfigFileRuns.
Import config.

(** No slot is loaded from the key [iaa_uncompress_percentage]; the table
    names [use_zlib_uncompress] twice, once in capitals. *)
Lemma config_names_misaligned :
  config_name USE_ZLIB_UNCOMPRESS = "USE_ZLIB_UNCOMPRESS"
  /\ config_name IAA_COMPRESS_PERCENTAGE = "use_zlib_uncompress"
  /\ config_name IAA_UNCOMPRESS_PERCENTAGE = "iaa_compress_percentage"
  /\ Forall (fun o => config_name o <> "iaa_uncompress_percentage")
            all_options
  /\ Forall (fun o => index o <> 5%nat /\ index o <> 6%nat
                       /\ index o <> 7%nat ->
                       config_name o = documented_key o) all_options.
Proof.
  repeat split.
  - unfold all_options. repeat constructor; discriminate.
  - unfold all_options.
    repeat constructor; simpl; intros (H5 & H6 & H7);
      first [reflexivity | congruence].
Qed.

(** C1 (as the code behaves).  On a file that stores 70 under
    [iaa_compress_percentage], 30 under [iaa_uncompress_percentage] and 1
    under [use_zlib_uncompress], [LoadConfigFile] succeeds and leaves 1 in
    the slot of [IAA_COMPRESS_PERCENTAGE] and 70 in the slot of
    [IAA_UNCOMPRESS_PERCENTAGE]: neither slot holds the value stored
    under its own key. *)
Theorem LoadConfigFile_percentage_slots_shifted :
  let '(ok, _, s) :=
    LoadConfigFile sample_fs "" default_path default_store in
  ok = Returns true
  /\ int_values sample_file !! documented_key IAA_COMPRESS_PERCENTAGE
     = Some 70
  /\ int_values sample_file !! documented_key IAA_UNCOMPRESS_PERCENTAGE
     = Some 30
  /\ int_values sample_file !! documented_key USE_ZLIB_UNCOMPRESS = Some 1
  /\ GetConfig IAA_COMPRESS_PERCENTAGE (configs s) = 1
  /\ GetConfig IAA_UNCOMPRESS_PERCENTAGE (configs s) = 70.
Proof. vm_compute. repeat split. Qed.

(** [LoadConfigFile] on a path that names nothing, from the defaults. *)
Lemma LoadConfigFile_missing_file_defaults :
  names_no_file sample_fs "/etc/missing.conf"
  /\ LoadConfigFile sample_fs "" "/etc/missing.conf" default_store
     = (Returns false, "", default_store).
Proof.
  assert (H : names_no_file sample_fs "/etc/missing.conf")
    by (left; reflexivity).
  split; [exact H |].
  apply (LoadConfigFile_missing_file (ConfigReader := KeyValueFile)
           sample_fs "" "/etc/missing.conf" default_store H).
  discriminate.
Defined.

(** C2 as it was stated fails: the path of 301 characters names no file,
    and on it [LoadConfigFile] does not return [false], it throws (the
    store is untouched all the same). *)
Lemma LoadConfigFile_long_name_throws :
  names_no_file long_name_fs long_path
  /\ LoadConfigFile long_name_fs "" long_path default_store
     = (Throws (filesystem_error ENAMETOOLONG), "", default_store)
  /\ fst (fst (LoadConfigFile long_name_fs "" long_path default_store))
     <> Returns false.
Proof.
  split; [right; right; reflexivity |].
  split; [reflexivity |].
  vm_compute. discriminate.
Qed.

End LoadConfigFileRuns.

(** ** Logging *)

Section LogFacts.
Import config logging.

Lemma append_empty_r (s : string) : s +:+ "" = s.
Proof.
  induction s as [| a s IH]; [reflexivity |].
  change (String a (s +:+ "") = String a s). now rewrite IH.
Qed.

Lemma append_assoc (s t u : string) : (s +:+ t) +:+ u = s +:+ (t +:+ u).
Proof.
  induction s as [| a s IH]; [reflexivity |].
  change (String a ((s +:+ t) +:+ u) = String a (s +:+ (t +:+ u))).
  now rewrite IH.
Qed.

Lemma append_eq_self (s t : string) : s +:+ t = s -> t = "".
Proof.
  intros H. rewrite <- (append_empty_r s) in H at 2.
  now apply (inj (String.append s)) in H.
Qed.

Lemma LogImpl_render (stream : string) (args : list LogArg) :
  LogImpl stream args = stream +:+ render args +:+ endl.
Proof.
  revert stream. induction args as [| a rest IH]; intros stream.
  - reflexivity.
  - simpl. rewrite IH. now rewrite !append_assoc.
Qed.

Lemma GetLogStream_put_stream (env : LogEnv) (text : string) :
  GetLogStream (put_stream env text) = text.
Proof.
  unfold GetLogStream, put_stream.
  destruct (log_file_stream env) as [[[] w] |]; reflexivity.
Qed.

Lemma put_stream_configs (env : LogEnv) (text : string) :
  env_configs (put_stream env text) = env_configs env.
Proof.
  unfold put_stream.
  destruct (log_file_stream env) as [[[] w] |]; reflexivity.
Qed.

Lemma line_nonempty (level : LogLevel) (args : list LogArg) :
  level <> LOG_NONE -> line level args <> "".
Proof. intros Hl. destruct level; [congruence | discriminate ..]. Qed.

(** A call that passes both tests appends one line to the selected
    stream; any other call returns the environment as it was. *)
Lemma Log_passes (level : LogLevel) (args : list LogArg) (env : LogEnv) :
  level <> LOG_NONE ->
  GetConfig LOG_LEVEL (env_configs env) <= level_value level ->
  Log level args env
  = put_stream env (GetLogStream env +:+ line level args).
Proof.
  intros Hl Hc. unfold Log, line.
  destruct (Z.ltb_spec (level_value level)
              (GetConfig LOG_LEVEL (env_configs env))) as [Hlt | _]; [lia |].
  destruct level; [congruence | |];
    now rewrite LogImpl_render, append_assoc.
Qed.

Lemma Log_filtered (level : LogLevel) (args : list LogArg) (env : LogEnv) :
  level = LOG_NONE
  \/ level_value level < GetConfig LOG_LEVEL (env_configs env) ->
  Log level args env = env.
Proof.
  intros H. unfold Log.
  destruct (Z.ltb_spec (level_value level)
              (GetConfig LOG_LEVEL (env_configs env))) as [Hlt | Hge];
    [reflexivity |].
  destruct H as [-> | Hlt]; [reflexivity | lia].
Qed.

Lemma Log_configs (level : LogLevel) (args : list LogArg) (env : LogEnv) :
  env_configs (Log level args env) = env_configs env.
Proof.
  unfold Log.
  destruct (_ <? _); [reflexivity |].
  destruct level; [reflexivity | apply put_stream_configs ..].
Qed.

(** C10.  In the [DEBUG_LOG] build, [Log(LOG_NONE, ...)] writes nothing,
    whatever the configured level and the arguments.  [Log(level, ...)]
    changes the log stream if and only if [level] is not [LOG_NONE] and
    its numeric value is at least [configs[LOG_LEVEL]]; what it then
    appends is the prefix "Error: " or "Info: ", the arguments, and the
    end of line. *)
Theorem Log_emits_iff (level : LogLevel) (args : list LogArg)
    (env : LogEnv) :
  Log LOG_NONE args env = env
  /\ (GetLogStream (Log level args env) <> GetLogStream env
      <-> level <> LOG_NONE
          /\ GetConfig LOG_LEVEL (env_configs env) <= level_value level)
  /\ (GetLogStream (Log level args env) <> GetLogStream env ->
      GetLogStream (Log level args env)
      = GetLogStream env
        +:+ (match level with LOG_ERROR => "Error: " | _ => "Info: " end)
        +:+ render args +:+ endl).
Proof.
  assert (Hiff : GetLogStream (Log level args env) <> GetLogStream env
                 <-> level <> LOG_NONE
                     /\ GetConfig LOG_LEVEL (env_configs env)
                        <= level_value level).
  { split.
    - intros Hne.
      destruct (decide (level = LOG_NONE)) as [-> | Hl].
      + exfalso. apply Hne. now rewrite Log_filtered by (now left).
      + split; [exact Hl |].
        destruct (Z.lt_ge_cases (level_value level)
                    (GetConfig LOG_LEVEL (env_configs env))) as [Hlt | Hge];
          [| lia].
        exfalso. apply Hne. now rewrite Log_filtered by (now right).
    - intros [Hl Hc]. rewrite Log_passes by assumption.
      rewrite GetLogStream_put_stream. intros Heq.
      apply append_eq_self in Heq. now apply (line_nonempty level args). }
  split; [apply Log_filtered; now left |].
  split; [exact Hiff |].
  intros Hne. apply Hiff in Hne as [Hl Hc].
  rewrite Log_passes by assumption. rewrite GetLogStream_put_stream.
  unfold line. destruct level; [congruence | reflexivity ..].
Qed.

End LogFacts.

Section PrintDeflateBlockHeaderFacts.
Import config logging.
Context {CompressedFormat : Type} `{!HeaderFormat CompressedFormat}.


Lemma byte_at_lookup (data : list byte) (i : Z) (b : byte) :
  data !! Z.to_nat i = Some b -> byte_at data i = Z.of_N (Byte.to_N b).
Proof. intros H. unfold byte_at. now rewrite H. Qed.

Lemma to_uint32_small (z : Z) : 0 <= z < 2 ^ 32 -> to_uint32 z = z.
Proof. intros Hz. unfold to_uint32. now apply Z.mod_small. Qed.


End PrintDeflateBlockHeaderFacts.

Section PrintDeflateBlockHeaderRuns.
Import config logging.


End PrintDeflateBlockHeaderRuns.

(** ** The path selector *)

Section SelectFacts.
Import config dispatcher.

Lemma threshold_0 (direction : Direction) (s : ConfigSnapshot) :
  iaa_percentage s direction = 0 -> threshold direction s = 0%Qc.
Proof. intros H. unfold threshold. rewrite H. now apply Qc_is_canon. Qed.

Lemma threshold_100 (direction : Direction) (s : ConfigSnapshot) :
  iaa_percentage s direction = 100 -> threshold direction s = 1%Qc.
Proof. intros H. unfold threshold. rewrite H. now apply Qc_is_canon. Qed.

(** C3.  For a draw in [0,1): QAT whenever QAT is enabled for the
    direction; otherwise, with IAA enabled, IAA exactly when the draw is
    below the threshold and Zlib otherwise; otherwise Zlib when Zlib is
    enabled; Undefined exactly when no backend is enabled.  With the
    percentage at 0 the result is never IAA; at 100, with QAT disabled and
    IAA enabled, it is always IAA. *)
Theorem select_decision_order (direction : Direction) (s : ConfigSnapshot)
    (draw : Qc) :
  (0 <= draw)%Qc -> (draw < 1)%Qc ->
  (qat_enabled s direction = true -> select direction s draw = QAT)
  /\ (qat_enabled s direction = false -> iaa_enabled s direction = true ->
      (select direction s draw = IAA <-> (draw < threshold direction s)%Qc)
      /\ (select direction s draw = ZLIB
          <-> ~ (draw < threshold direction s)%Qc))
  /\ (qat_enabled s direction = false -> iaa_enabled s direction = false ->
      zlib_enabled s direction = true -> select direction s draw = ZLIB)
  /\ (select direction s draw = UNDEFINED
      <-> qat_enabled s direction = false
          /\ iaa_enabled s direction = false
          /\ zlib_enabled s direction = false)
  /\ (iaa_percentage s direction = 0 -> select direction s draw <> IAA)
  /\ (iaa_percentage s direction = 100 ->
      qat_enabled s direction = false -> iaa_enabled s direction = true ->
      select direction s draw = IAA).
Proof.
  intros H0 H1. unfold select.
  split; [intros ->; reflexivity |].
  split.
  { intros -> ->. case_bool_decide as Hd; split; split; intros H;
      first [reflexivity | exact Hd | discriminate H | contradiction]. }
  split; [intros -> -> ->; reflexivity |].
  split.
  { destruct (qat_enabled s direction), (iaa_enabled s direction),
      (zlib_enabled s direction); try case_bool_decide;
      (split; [intros Hu; try discriminate Hu; repeat split
              | intros (Ha & Hb & Hc);
                first [discriminate Ha | discriminate Hb | discriminate Hc
                      | reflexivity]]). }
  split.
  { intros Hp. rewrite (threshold_0 direction s Hp).
    destruct (qat_enabled s direction); [discriminate |].
    destruct (iaa_enabled s direction).
    - case_bool_decide as Hd; [| discriminate].
      exfalso. apply (Qclt_not_le _ _ Hd H0).
    - destruct (zlib_enabled s direction); discriminate. }
  intros Hp -> ->. rewrite (threshold_100 direction s Hp).
  case_bool_decide as Hd; [reflexivity | contradiction].
Qed.

(** The default table with IAA switched on for compression and QAT
    switched off: a draw of 1/4 is below the threshold of 50/100. *)
Lemma select_decision_order_sample :
  ((0 <= Q2Qc (1 # 4))%Qc /\ (Q2Qc (1 # 4) < 1)%Qc)
  /\ select Compress
       (snapshot (SetConfig USE_QAT_COMPRESS 0
                    (SetConfig USE_IAA_COMPRESS 1 default_configs)))
       (Q2Qc (1 # 4)) = IAA.
Proof.
  split; [split; [vm_compute; congruence | reflexivity] |].
  destruct (select_decision_order Compress
              (snapshot (SetConfig USE_QAT_COMPRESS 0
                           (SetConfig USE_IAA_COMPRESS 1 default_configs)))
              (Q2Qc (1 # 4))) as (_ & Hiaa & _);
    [vm_compute; congruence | reflexivity |].
  apply Hiaa; reflexivity.
Defined.

End SelectFacts.

(** ** The dispatcher *)

Section DispatcherFacts.
Import config dispatcher.
Context {Handle : Type} `{!BackendAdapter Handle}.

Implicit Types (reg : gmap Z (PathRecord Handle)) (c : Call)
  (r : PathRecord Handle) (id : Z).

(** *** Creation of a record *)

Lemma new_record_None c :
  new_record c = None
  <-> select (call_direction c) (config_snapshot c) (random_draw c)
      = UNDEFINED.
Proof.
  unfold new_record.
  destruct (select _ _ _); split; intros H; congruence.
Qed.


(** *** One step on a bound record *)

Lemma dispatch_no_error c r :
  let res := step (chosen_path r) (backend_handle r) (input_buffer c)
                  (output_space c) in
  step_status res <> ERROR ->
  dispatch c r
  = (map_status (step_status res), consumed res, produced res,
     account r (chosen_path r) (next_handle res) false (consumed res)
             (produced res)).
Proof.
  intros res Hs. unfold dispatch. fold res.
  destruct (step_status res); congruence.
Qed.

Lemma dispatch_fallback c r :
  let res := step (chosen_path r) (backend_handle r) (input_buffer c)
                  (output_space c) in
  step_status res = ERROR ->
  is_hardware (chosen_path r) = true ->
  fallback_occurred r = false ->
  dispatch c r = fallback c r res.
Proof.
  intros res Hs Hhw Hfb. unfold dispatch. fold res.
  now rewrite Hs, Hhw, Hfb.
Qed.

Lemma dispatch_terminal c r :
  let res := step (chosen_path r) (backend_handle r) (input_buffer c)
                  (output_space c) in
  step_status res = ERROR ->
  is_hardware (chosen_path r) = false \/ fallback_occurred r = true ->
  dispatch c r
  = (Z_ERROR, consumed res, produced res,
     account r (chosen_path r) (next_handle res) false (consumed res)
             (produced res)).
Proof.
  intros res Hs Hor. unfold dispatch. fold res. rewrite Hs.
  destruct Hor as [-> | ->]; [reflexivity |].
  now rewrite andb_false_r.
Qed.

(** The path and the fallback flag across one step: both stay, or the
    record was on hardware with the flag down and is now on Zlib with the
    flag up. *)
Lemma dispatch_transition c r :
  let r' := snd (dispatch c r) in
  (chosen_path r' = chosen_path r
   /\ fallback_occurred r' = fallback_occurred r)
  \/ (is_hardware (chosen_path r) = true
      /\ fallback_occurred r = false
      /\ chosen_path r' = ZLIB
      /\ fallback_occurred r' = true).
Proof.
  unfold dispatch.
  destruct (step_status _) eqn:Hs; simpl;
    try (left; split; [reflexivity | apply orb_false_r]).
  destruct (is_hardware (chosen_path r)) eqn:Hhw; simpl.
  - destruct (fallback_occurred r) eqn:Hfb; simpl.
    + left. now rewrite Hfb.
    + right. unfold fallback. simpl. repeat split.
      now rewrite Hfb.
  - left. split; [reflexivity | apply orb_false_r].
Qed.

Lemma dispatch_status c r :
  fst (fst (fst (dispatch c r))) <> Z_CONFIG_ERROR.
Proof.
  unfold dispatch, fallback.
  destruct (step_status (step (chosen_path r) _ _ _)) eqn:Hs; simpl;
    try discriminate.
  destruct (_ && _); simpl; [| discriminate].
  destruct (step_status (step ZLIB _ _ _)); simpl; discriminate.
Qed.

(** *** One processing call *)

Lemma process_unbound reg c :
  resolve reg c = None
  \/ (exists r, resolve reg c = Some r /\ chosen_path r = UNDEFINED) ->
  process reg c
  = {| status := Z_CONFIG_ERROR; bytes_consumed := 0%nat; output := [];
       registry := reg |}.
Proof.
  unfold process. intros [-> | (r & -> & ->)]; reflexivity.
Qed.

Lemma process_bound reg c r :
  resolve reg c = Some r ->
  chosen_path r <> UNDEFINED ->
  process reg c
  = {| status := fst (fst (fst (dispatch c r)));
       bytes_consumed := snd (fst (fst (dispatch c r)));
       output := snd (fst (dispatch c r));
       registry := <[identity c := snd (dispatch c r)]> reg |}.
Proof.
  intros Hres Hp. unfold process. rewrite Hres.
  destruct (dispatch c r) as [[[st n] out] r'].
  destruct (chosen_path r); [congruence | reflexivity ..].
Qed.

Lemma resolve_cases reg c :
  resolve reg c = None
  \/ (exists r, resolve reg c = Some r /\ chosen_path r = UNDEFINED)
  \/ (exists r, resolve reg c = Some r /\ chosen_path r <> UNDEFINED).
Proof.
  destruct (resolve reg c) as [r |]; [| now left].
  right. destruct (decide (chosen_path r = UNDEFINED)); eauto.
Qed.

(** A call leaves the records of the other streams alone. *)
Lemma process_other reg c id :
  id <> identity c -> registry (process reg c) !! id = reg !! id.
Proof.
  intros Hne.
  destruct (resolve_cases reg c) as [Hn | [Hu | (r & Hr & Hp)]].
  - rewrite process_unbound by (now left). reflexivity.
  - rewrite process_unbound by (now right). reflexivity.
  - rewrite (process_bound reg c r Hr Hp). simpl.
    now apply lookup_insert_ne.
Qed.

Lemma resolve_stored reg c r :
  reg !! identity c = Some r -> resolve reg c = Some r.
Proof. intros H. unfold resolve. now rewrite H. Qed.

Lemma get_execution_path_bound reg id :
  get_execution_path reg id <> UNDEFINED ->
  exists r, reg !! id = Some r /\ chosen_path r = get_execution_path reg id.
Proof.
  unfold get_execution_path.
  destruct (reg !! id) as [r |]; [eauto | congruence].
Qed.

(** The path of any stream across one call of any stream. *)
Lemma process_path_step reg c id :
  get_execution_path reg id <> UNDEFINED ->
  get_execution_path (registry (process reg c)) id
  = get_execution_path reg id
  \/ (is_hardware (get_execution_path reg id) = true
      /\ get_execution_path (registry (process reg c)) id = ZLIB).
Proof.
  intros Hp.
  destruct (decide (id = identity c)) as [-> | Hne].
  - destruct (get_execution_path_bound reg _ Hp) as (r & Hr & Hpr).
    assert (Hq : get_execution_path (registry (process reg c)) (identity c)
                 = chosen_path (snd (dispatch c r))).
    { rewrite (process_bound reg c r (resolve_stored reg c r Hr))
        by (now rewrite Hpr).
      unfold get_execution_path. simpl. now rewrite lookup_insert_eq. }
    rewrite Hq, <- Hpr.
    destruct (dispatch_transition c r) as [[Hsame _] | (Hhw & _ & Hz & _)].
    + now left.
    + right. now split.
  - left. unfold get_execution_path. now rewrite process_other.
Qed.

Lemma run_path_step reg (calls : list Call) id :
  get_execution_path reg id <> UNDEFINED ->
  get_execution_path (run reg calls) id = get_execution_path reg id
  \/ (is_hardware (get_execution_path reg id) = true
      /\ get_execution_path (run reg calls) id = ZLIB).
Proof.
  revert reg. induction calls as [| c rest IH]; intros reg Hp; simpl.
  - now left.
  - destruct (process_path_step reg c id Hp) as [Hsame | [Hhw Hz]].
    + rewrite <- Hsame in Hp |- *. rewrite Hsame at 2. rewrite <- Hsame.
      apply IH. exact Hp.
    + assert (Hz' : get_execution_path (registry (process reg c)) id
                    <> UNDEFINED) by (rewrite Hz; discriminate).
      destruct (IH _ Hz') as [Hsame | [Hhw' _]].
      * right. split; [exact Hhw |]. now rewrite Hsame.
      * rewrite Hz in Hhw'. discriminate Hhw'.
Qed.

(** C6.  A call whose record has no path (none of the backends is
    enabled for the direction of a stream that has no record yet, or the
    stored record is unbound) returns the configuration-error status,
    consumes no input, produces no output and leaves the registry as it
    was: no record is added. *)
Theorem process_undefined_configuration_error reg c :
  (reg !! identity c = None
   /\ qat_enabled (config_snapshot c) (call_direction c) = false
   /\ iaa_enabled (config_snapshot c) (call_direction c) = false
   /\ zlib_enabled (config_snapshot c) (call_direction c) = false)
  \/ (exists r, reg !! identity c = Some r /\ chosen_path r = UNDEFINED) ->
  process reg c
  = {| status := Z_CONFIG_ERROR; bytes_consumed := 0%nat; output := [];
       registry := reg |}.
Proof.
  intros [(Hnone & Hq & Hi & Hz) | (r & Hr & Hp)].
  - apply process_unbound. left.
    unfold resolve. rewrite Hnone. apply new_record_None.
    unfold select. now rewrite Hq, Hi, Hz.
  - apply process_unbound. right. exists r.
    split; [now apply resolve_stored | exact Hp].
Qed.


(** *** Fallback *)

Lemma fallen_back_lookup reg id r :
  reg !! id = Some r -> fallen_back reg id = fallback_occurred r.
Proof. intros H. unfold fallen_back. now rewrite H. Qed.

(** The fallback flag of a stream is never lowered by a call. *)
Lemma process_fallen_back_mono reg c id :
  fallen_back reg id = true ->
  fallen_back (registry (process reg c)) id = true.
Proof.
  intros Hfb.
  destruct (decide (id = identity c)) as [-> | Hne].
  - unfold fallen_back in Hfb.
    destruct (reg !! identity c) as [r |] eqn:Hr; [| discriminate].
    destruct (decide (chosen_path r = UNDEFINED)) as [Hu | Hp].
    + rewrite process_unbound
        by (right; exists r; split; [now apply resolve_stored | exact Hu]).
      simpl. unfold fallen_back. now rewrite Hr.
    + rewrite (process_bound reg c r (resolve_stored reg c r Hr) Hp).
      unfold fallen_back. simpl. rewrite lookup_insert_eq.
      destruct (dispatch_transition c r) as [[_ Hsame] | (_ & _ & _ & Hup)];
        congruence.
  - unfold fallen_back. now rewrite process_other.
Qed.

Lemma fallback_count_after_fallback reg (calls : list Call) id :
  fallen_back reg id = true -> fallback_count id reg calls = 0%nat.
Proof.
  revert reg. induction calls as [| c rest IH]; intros reg Hfb; simpl.
  - reflexivity.
  - rewrite Hfb. simpl. apply IH. now apply process_fallen_back_mono.
Qed.

(** Over any sequence of calls a stream falls back at most once. *)
Lemma fallback_count_le_1 reg (calls : list Call) id :
  (fallback_count id reg calls <= 1)%nat.
Proof.
  revert reg. induction calls as [| c rest IH]; intros reg; simpl.
  - lia.
  - destruct (fallen_back reg id) eqn:Hfb; simpl.
    + rewrite fallback_count_after_fallback
        by (now apply process_fallen_back_mono). lia.
    + destruct (fallen_back (registry (process reg c)) id) eqn:Hfb'.
      * rewrite fallback_count_after_fallback by exact Hfb'. lia.
      * apply IH.
Qed.

(** An ERROR of the software backend is surfaced and changes neither the
    path nor the fallback flag; there is no replay. *)
Lemma software_error_terminal reg c r :
  resolve reg c = Some r ->
  chosen_path r = ZLIB ->
  let sw := step ZLIB (backend_handle r) (input_buffer c) (output_space c) in
  step_status sw = ERROR ->
  status (process reg c) = Z_ERROR
  /\ bytes_consumed (process reg c) = consumed sw
  /\ output (process reg c) = produced sw
  /\ get_execution_path (registry (process reg c)) (identity c) = ZLIB
  /\ fallen_back (registry (process reg c)) (identity c)
     = fallback_occurred r.
Proof.
  intros Hres Hz sw Hs.
  rewrite (process_bound reg c r Hres) by (rewrite Hz; discriminate).
  unfold get_execution_path, fallen_back. simpl. rewrite lookup_insert_eq.
  pose proof (dispatch_terminal c r) as Hd. simpl in Hd.
  rewrite Hz in Hd. fold sw in Hd.
  rewrite (Hd Hs (or_introl eq_refl)). simpl.
  repeat split. apply orb_false_r.
Qed.

(** C5.  A record bound to QAT or IAA whose flag is still down and whose
    backend step reports ERROR: the call raises [fallback_occurred],
    rebinds the record to Zlib and replays the step with a fresh software
    handle on the input that follows the bytes the hardware consumed; the
    output of the call is the hardware's bytes followed by the software's,
    each counted once.  In any continuation the stream stays on Zlib and
    this remains its only fallback; an ERROR of the software backend is
    surfaced as an error without a replay. *)
Theorem hardware_error_falls_back_once reg c r (calls : list Call) :
  resolve reg c = Some r ->
  is_hardware (chosen_path r) = true ->
  fallback_occurred r = false ->
  step_status (step (chosen_path r) (backend_handle r) (input_buffer c)
                    (output_space c)) = ERROR ->
  let hw := step (chosen_path r) (backend_handle r) (input_buffer c)
                 (output_space c) in
  let sw := step ZLIB (init ZLIB (direction r))
                 (drop (consumed hw) (input_buffer c))
                 (output_space c - length (produced hw))%nat in
  let o := process reg c in
  (exists r',
      registry o !! identity c = Some r'
      /\ fallback_occurred r' = true
      /\ chosen_path r' = ZLIB
      /\ backend_handle r' = next_handle sw
      /\ bytes_in r' = (bytes_in r + (consumed hw + consumed sw))%nat
      /\ bytes_out r'
         = (bytes_out r + (length (produced hw) + length (produced sw)))%nat)
  /\ output o = produced hw ++ produced sw
  /\ bytes_consumed o = (consumed hw + consumed sw)%nat
  /\ status o = map_status (step_status sw)
  /\ fallback_count (identity c) reg (c :: calls) = 1%nat
  /\ get_execution_path (run reg (c :: calls)) (identity c) = ZLIB
  /\ (forall c2 r2,
        resolve (registry o) c2 = Some r2 ->
        chosen_path r2 = ZLIB ->
        step_status (step ZLIB (backend_handle r2) (input_buffer c2)
                          (output_space c2)) = ERROR ->
        status (process (registry o) c2) = Z_ERROR
        /\ output (process (registry o) c2)
           = produced (step ZLIB (backend_handle r2) (input_buffer c2)
                            (output_space c2))
        /\ get_execution_path (registry (process (registry o) c2))
             (identity c2) = ZLIB).
Proof.
  intros Hres Hhw Hfb Herr hw sw o.
  assert (Hp : chosen_path r <> UNDEFINED)
    by (intros Hu; rewrite Hu in Hhw; discriminate Hhw).
  assert (Ho : o = {| status := map_status (step_status sw);
                      bytes_consumed := (consumed hw + consumed sw)%nat;
                      output := produced hw ++ produced sw;
                      registry :=
                        <[identity c :=
                            account r ZLIB (next_handle sw) true
                              (consumed hw + consumed sw)
                              (produced hw ++ produced sw)]> reg |}).
  { subst o. rewrite (process_bound reg c r Hres Hp).
    rewrite (dispatch_fallback c r Herr Hhw Hfb). reflexivity. }
  assert (Hflag : fallen_back (registry o) (identity c) = true).
  { rewrite Ho. unfold fallen_back. simpl. rewrite lookup_insert_eq.
    simpl. apply orb_true_r. }
  assert (Hpath : get_execution_path (registry o) (identity c) = ZLIB).
  { rewrite Ho. unfold get_execution_path. simpl.
    now rewrite lookup_insert_eq. }
  split.
  { eexists. rewrite Ho. simpl. rewrite lookup_insert_eq.
    split; [reflexivity |]. simpl.
    rewrite length_app, orb_true_r. repeat split. }
  split; [now rewrite Ho |].
  split; [now rewrite Ho |].
  split; [now rewrite Ho |].
  split.
  { simpl. fold o. rewrite Hflag.
    rewrite fallback_count_after_fallback by exact Hflag.
    assert (Hbefore : fallen_back reg (identity c) = false).
    { unfold fallen_back. unfold resolve in Hres.
      destruct (reg !! identity c) as [r0 |]; [| reflexivity].
      inversion Hres; subst. exact Hfb. }
    now rewrite Hbefore. }
  split.
  { simpl. fold o.
    destruct (run_path_step (registry o) calls (identity c))
      as [Hsame | [Hhw' _]].
    - rewrite Hpath. discriminate.
    - now rewrite Hsame.
    - rewrite Hpath in Hhw'. discriminate Hhw'. }
  intros c2 r2 Hres2 Hz2 Herr2.
  destruct (software_error_terminal (registry o) c2 r2 Hres2 Hz2 Herr2)
    as (Hst & _ & Hout & Hpath2 & _).
  now repeat split.
Qed.

End DispatcherFacts.

Section DispatcherRuns.
Import config dispatcher.

(** The first call on stream 7 with nothing enabled, on the empty
    registry. *)
Lemma process_nothing_enabled :
  ((∅ : gmap Z (PathRecord nat)) !! identity (sample_call nothing_enabled)
   = None
   /\ qat_enabled nothing_enabled Compress = false
   /\ iaa_enabled nothing_enabled Compress = false
   /\ zlib_enabled nothing_enabled Compress = false)
  /\ process (∅ : gmap Z (PathRecord nat)) (sample_call nothing_enabled)
     = {| status := Z_CONFIG_ERROR; bytes_consumed := 0%nat; output := [];
          registry := ∅ |}.
Proof.
  assert (H : (∅ : gmap Z (PathRecord nat))
                !! identity (sample_call nothing_enabled) = None
              /\ qat_enabled nothing_enabled Compress = false
              /\ iaa_enabled nothing_enabled Compress = false
              /\ zlib_enabled nothing_enabled Compress = false)
    by (repeat split).
  split; [exact H |].
  apply (process_undefined_configuration_error (Handle := nat)).
  left. exact H.
Defined.

(** The QAT double fails after one byte of the four; the call hands the
    remaining three to Zlib and returns all four bytes, once each. *)
Lemma process_qat_failure :
  (resolve (∅ : gmap Z (PathRecord nat)) (sample_call qat_only)
   = Some qat_record
   /\ is_hardware (chosen_path qat_record) = true
   /\ fallback_occurred qat_record = false
   /\ step_status (step QAT 0%nat [x61; x62; x63; x64] 16) = ERROR)
  /\ output (process (∅ : gmap Z (PathRecord nat)) (sample_call qat_only))
     = [x61] ++ [x62; x63; x64]
  /\ bytes_consumed
       (process (∅ : gmap Z (PathRecord nat)) (sample_call qat_only))
     = 4%nat
  /\ status (process (∅ : gmap Z (PathRecord nat)) (sample_call qat_only))
     = Z_OK.
Proof.
  assert (H1 : resolve (∅ : gmap Z (PathRecord nat)) (sample_call qat_only)
               = Some qat_record) by reflexivity.
  split; [repeat split |].
  destruct (hardware_error_falls_back_once (Handle := nat)
              ∅ (sample_call qat_only) qat_record [] H1 eq_refl eq_refl
              eq_refl) as (_ & Hout & Hin & Hst & _).
  split; [exact Hout |]. split; [exact Hin | exact Hst].
Defined.

End DispatcherRuns.

(* ===================================================================== *)
(** * Part III: further properties of the code *)
(* ===================================================================== *)

(** ** config.cpp: the table under [SetConfig] *)

Section SetConfigFacts.
Import config.

(** X1.  [SetConfig] touches one slot: every other option reads as before,
    a second write to the same option replaces the first, and writes to
    two different options can be done in either order. *)
Theorem SetConfig_frame_and_order (cfg : list Z) (o o' : ConfigOption)
    (v v' : Z) :
  (o <> o' -> GetConfig o' (SetConfig o v cfg) = GetConfig o' cfg)
  /\ SetConfig o v (SetConfig o v' cfg) = SetConfig o v cfg
  /\ (o <> o' ->
      SetConfig o v (SetConfig o' v' cfg)
      = SetConfig o' v' (SetConfig o v cfg)).
Proof.
  split; [| split].
  - intros Hne. unfold GetConfig, SetConfig.
    apply list_lookup_total_insert_ne.
    intros Heq. apply Hne. now apply index_inj.
  - unfold SetConfig. apply list_insert_insert_eq.
  - intros Hne. unfold SetConfig. apply list_insert_insert_ne.
    intros Heq. apply Hne. now apply index_inj.
Qed.

(** X2.  On a table whose entries are [uint16_t] values, writing back what
    [GetConfig] returned changes nothing. *)
Theorem SetConfig_GetConfig_identity (cfg : list Z) (o : ConfigOption) :
  length cfg = CONFIG_MAX ->
  Forall (fun z => 0 <= z < 2 ^ 16) cfg ->
  SetConfig o (GetConfig o cfg) cfg = cfg.
Proof.
  intros Hlen Hrange. unfold SetConfig, GetConfig.
  pose proof (index_lt_CONFIG_MAX o) as Hlt. rewrite <- Hlen in Hlt.
  destruct (lookup_lt_is_Some_2 cfg (index o) Hlt) as [z Hz].
  rewrite (list_lookup_total_correct cfg (index o) z Hz).
  rewrite to_uint16_small.
  - now apply list_insert_id.
  - rewrite Forall_lookup in Hrange. exact (Hrange _ _ Hz).
Qed.

(** The default table, at [QAT_COMPRESSION_LEVEL]. *)
Lemma SetConfig_GetConfig_identity_defaults :
  (length default_configs = CONFIG_MAX
   /\ Forall (fun z => 0 <= z < 2 ^ 16) default_configs)
  /\ SetConfig QAT_COMPRESSION_LEVEL
       (GetConfig QAT_COMPRESSION_LEVEL default_configs) default_configs
     = default_configs.
Proof.
  assert (H : Forall (fun z => 0 <= z < 2 ^ 16) default_configs)
    by (unfold default_configs; repeat constructor; lia).
  split; [split; [reflexivity | exact H] |].
  apply (SetConfig_GetConfig_identity default_configs QAT_COMPRESSION_LEVEL);
    [reflexivity | exact H].
Defined.

End SetConfigFacts.

(** ** config.cpp: a successful [LoadConfigFile] *)

Section LoadConfigFileMore.
Import config.
Context {ConfigReader : Type} `{!ConfigReaderOps ConfigReader}.

Lemma read_values_length (r : ConfigReader)
    (plan : list (ConfigOption * Z * Z)) (value : Z) :
  length (read_values r plan value) = length plan.
Proof.
  revert value. induction plan as [| [[o mx] mn] rest IH]; intros value.
  - reflexivity.
  - simpl. now rewrite IH.
Qed.

(** Each call is given what the call before it left in [value]. *)
Lemma read_values_lookup_S (r : ConfigReader)
    (plan : list (ConfigOption * Z * Z)) (value : Z) (i : nat)
    (o : ConfigOption) (mx mn x : Z) :
  plan !! S i = Some (o, mx, mn) ->
  read_values r plan value !! i = Some x ->
  read_values r plan value !! S i
  = Some (GetValue r (config_name o) x mx mn).
Proof.
  revert value i. induction plan as [| [[o0 mx0] mn0] rest IH];
    intros value i Hplan Hx.
  - discriminate Hplan.
  - destruct i as [| i].
    + destruct rest as [| [[o1 mx1] mn1] rest']; [discriminate Hplan |].
      simpl in Hplan, Hx |- *. inversion Hplan; subst. inversion Hx; subst.
      reflexivity.
    + simpl in Hplan, Hx |- *. now apply IH.
Qed.

(** The table after the thirteen calls holds the thirteen values of
    [value], each converted to [uint16_t]; nothing of the table before is
    left. *)
Lemma load_all_read_values (r : ConfigReader) (cfg : list Z) :
  length cfg = CONFIG_MAX ->
  snd (load_all r cfg) = to_uint16 <$> read_values r load_plan 0.
Proof.
  intros Hlen. unfold CONFIG_MAX in Hlen.
  do 14 (destruct cfg as [| ? cfg]; try discriminate Hlen).
  reflexivity.
Qed.

Lemma LoadConfigFile_regular_file (fs : FileSystem)
    (file_content filePath : string) (s : Store) :
  fs_exists fs filePath = Returns true ->
  fs_is_symlink fs filePath = Returns false ->
  LoadConfigFile fs file_content filePath s
  = (Returns true, file_content +:+ DumpValues (ParseFile fs filePath),
     {| configs := snd (load_all (ParseFile fs filePath) (configs s));
        log_file := GetValueStr (ParseFile fs filePath) "log_file"
                      (log_file s) |}).
Proof.
  intros Hex Hsym. unfold LoadConfigFile. now rewrite Hex, Hsym.
Qed.

Lemma LoadConfigFile_regular_configs (fs : FileSystem)
    (file_content filePath : string) (s : Store) :
  fs_exists fs filePath = Returns true ->
  fs_is_symlink fs filePath = Returns false ->
  length (configs s) = CONFIG_MAX ->
  configs (snd (LoadConfigFile fs file_content filePath s))
  = to_uint16 <$> read_values (ParseFile fs filePath) load_plan 0.
Proof.
  intros Hex Hsym Hlen.
  rewrite (LoadConfigFile_regular_file fs file_content filePath s Hex Hsym).
  apply (load_all_read_values _ _ Hlen).
Qed.

(** X3.  On a regular file that exists, [LoadConfigFile] returns [true],
    appends the reader's dump to [file_content], takes [log_file] from the
    key [log_file], and replaces the whole table: slot by slot, in the
    order of the calls, it holds what each [GetValue] call left in
    [value], converted to [uint16_t]; no entry of the table before the
    call survives, and [LoadConfigFile] adds no range check of its own. *)
Theorem LoadConfigFile_replaces_table (fs : FileSystem)
    (file_content filePath : string) (s : Store) :
  fs_exists fs filePath = Returns true ->
  fs_is_symlink fs filePath = Returns false ->
  length (configs s) = CONFIG_MAX ->
  let r := ParseFile fs filePath in
  LoadConfigFile fs file_content filePath s
  = (Returns true, file_content +:+ DumpValues r,
     {| configs := to_uint16 <$> read_values r load_plan 0;
        log_file := GetValueStr r "log_file" (log_file s) |})
  /\ length (to_uint16 <$> read_values r load_plan 0) = CONFIG_MAX
  /\ Forall (fun z => 0 <= z < 2 ^ 16)
            (to_uint16 <$> read_values r load_plan 0).
Proof.
  intros Hex Hsym Hlen r. subst r.
  rewrite (LoadConfigFile_regular_file fs file_content filePath s Hex Hsym).
  rewrite (load_all_read_values _ _ Hlen).
  split; [reflexivity |].
  split.
  - rewrite length_fmap, read_values_length. reflexivity.
  - apply Forall_fmap, Forall_forall. intros z _. apply to_uint16_range.
Qed.

(** X4.  The assignment [configs[o] = value] is unconditional.  When the
    reader leaves [value] as it was at the call for an option (a key it
    does not find, say), the option does not keep its former or default
    value: it takes the value just loaded for the option before it in the
    order of the calls. *)
Theorem LoadConfigFile_untouched_value_inherited (fs : FileSystem)
    (file_content filePath : string) (s : Store) (o o' : ConfigOption)
    (mx mn : Z) :
  fs_exists fs filePath = Returns true ->
  fs_is_symlink fs filePath = Returns false ->
  length (configs s) = CONFIG_MAX ->
  index o' = S (index o) ->
  load_plan !! index o' = Some (o', mx, mn) ->
  (forall value : Z,
      GetValue (ParseFile fs filePath) (config_name o') value mx mn = value) ->
  let s' := snd (LoadConfigFile fs file_content filePath s) in
  GetConfig o' (configs s') = GetConfig o (configs s').
Proof.
  intros Hex Hsym Hlen Hidx Hplan Hsame s'. subst s'.
  rewrite (LoadConfigFile_regular_configs fs file_content filePath s
             Hex Hsym Hlen).
  set (r := ParseFile fs filePath) in *.
  assert (Hlt : (index o < length (read_values r load_plan 0))%nat).
  { rewrite read_values_length.
    pose proof (index_lt_CONFIG_MAX o). unfold CONFIG_MAX in *.
    change (length load_plan) with 13%nat. lia. }
  destruct (lookup_lt_is_Some_2 _ _ Hlt) as [x Hx].
  rewrite Hidx in Hplan.
  pose proof (read_values_lookup_S r load_plan 0 (index o) o' mx mn x
                Hplan Hx) as Hnext.
  rewrite Hsame in Hnext.
  unfold GetConfig. rewrite Hidx.
  rewrite !list_lookup_total_alt, !list_lookup_fmap, Hx, Hnext.
  reflexivity.
Qed.

(** X5.  With a reader that leaves [value] as it was at every call (a file
    without any of the keys), a successful [LoadConfigFile] sets all
    thirteen options to 0, the initial content of [value]: the defaults
    are lost, the software path is switched off with the rest, and the
    compression level is below its documented minimum. *)
Theorem LoadConfigFile_no_values_zeroes_table (fs : FileSystem)
    (file_content filePath : string) (s : Store) :
  fs_exists fs filePath = Returns true ->
  fs_is_symlink fs filePath = Returns false ->
  length (configs s) = CONFIG_MAX ->
  (forall (tag : string) (value mx mn : Z),
      GetValue (ParseFile fs filePath) tag value mx mn = value) ->
  configs (snd (LoadConfigFile fs file_content filePath s))
  = replicate CONFIG_MAX 0.
Proof.
  intros Hex Hsym Hlen Hsame.
  rewrite (LoadConfigFile_regular_configs fs file_content filePath s
             Hex Hsym Hlen).
  unfold load_plan. simpl. rewrite !Hsame. reflexivity.
Qed.

End LoadConfigFileMore.

Section LoadConfigFileMoreRuns.
Import config.

Lemma LoadConfigFile_replaces_table_sample :
  (fs_exists sample_fs default_path = Returns true
   /\ fs_is_symlink sample_fs default_path = Returns false
   /\ length (configs default_store) = CONFIG_MAX)
  /\ fst (LoadConfigFile sample_fs "" default_path default_store)
     = (Returns true,
        "" +:+ DumpValues (ParseFile sample_fs default_path)).
Proof.
  split; [repeat split |].
  destruct (LoadConfigFile_replaces_table (ConfigReader := KeyValueFile)
              sample_fs "" default_path default_store eq_refl eq_refl
              eq_refl) as [H _].
  rewrite H. reflexivity.
Defined.

(** The sample file has no key [USE_ZLIB_UNCOMPRESS] in capitals, the name
    the table gives to the option: the option takes the value loaded for
    [USE_ZLIB_COMPRESS]. *)
Lemma LoadConfigFile_untouched_value_inherited_sample :
  (fs_exists sample_fs default_path = Returns true
   /\ fs_is_symlink sample_fs default_path = Returns false
   /\ length (configs default_store) = CONFIG_MAX
   /\ index USE_ZLIB_UNCOMPRESS = S (index USE_ZLIB_COMPRESS)
   /\ load_plan !! index USE_ZLIB_UNCOMPRESS
      = Some (USE_ZLIB_UNCOMPRESS, 1, 0))
  /\ GetConfig USE_ZLIB_UNCOMPRESS
       (configs (snd (LoadConfigFile sample_fs "" default_path
                        default_store)))
     = GetConfig USE_ZLIB_COMPRESS
         (configs (snd (LoadConfigFile sample_fs "" default_path
                          default_store))).
Proof.
  split; [repeat split |].
  apply (LoadConfigFile_untouched_value_inherited
           (ConfigReader := KeyValueFile) sample_fs "" default_path
           default_store USE_ZLIB_COMPRESS USE_ZLIB_UNCOMPRESS 1 0);
    try reflexivity.
Defined.

Lemma LoadConfigFile_no_values_zeroes_table_sample :
  (fs_exists other_fs "/etc/empty.conf" = Returns true
   /\ fs_is_symlink other_fs "/etc/empty.conf" = Returns false
   /\ length (configs default_store) = CONFIG_MAX)
  /\ configs (snd (LoadConfigFile other_fs "" "/etc/empty.conf"
                     default_store))
     = replicate CONFIG_MAX 0.
Proof.
  split; [repeat split |].
  apply (LoadConfigFile_no_values_zeroes_table
           (ConfigReader := KeyValueFile)); try reflexivity.
Defined.

End LoadConfigFileMoreRuns.

Section LoadConfigFileFlag.
Import config.
Context {ConfigReader : Type} `{!ConfigReaderOps ConfigReader}.


End LoadConfigFileFlag.

(** ** logging.h: the sinks *)

Section LogSinkFacts.
Import config logging.

Lemma put_stream_open (env : LogEnv) (f : ofstream) (text : string) :
  log_file_stream env = Some f -> is_open f = true ->
  put_stream env text
  = {| env_configs := env_configs env;
       log_file_stream := Some {| is_open := true; written := text |};
       cout := cout env |}.
Proof. intros Hf Ho. unfold put_stream. now rewrite Hf, Ho. Qed.

Lemma put_stream_cout (env : LogEnv) (text : string) :
  log_file_stream env = None
  \/ (exists f, log_file_stream env = Some f /\ is_open f = false) ->
  put_stream env text
  = {| env_configs := env_configs env;
       log_file_stream := log_file_stream env;
       cout := text |}.
Proof.
  intros [Hn | (f & Hf & Ho)]; unfold put_stream.
  - now rewrite Hn.
  - now rewrite Hf, Ho.
Qed.

Lemma emitted_nonempty (cfg : list Z) (level : LogLevel)
    (args : list LogArg) :
  emitted cfg level args <> ""
  <-> level <> LOG_NONE /\ GetConfig LOG_LEVEL cfg <= level_value level.
Proof.
  unfold emitted.
  destruct (Z.ltb_spec (level_value level) (GetConfig LOG_LEVEL cfg))
    as [Hlt | Hge].
  - split; [congruence | intros [_ Hle]; lia].
  - destruct level; split;
      first [ congruence
            | intros [Hl _]; congruence
            | intros _; split; [discriminate | exact Hge]
            | intros _; discriminate ].
Qed.

(** Either the call is filtered and returns the environment, or it puts
    its line behind what the selected stream holds. *)
Lemma Log_cases (level : LogLevel) (args : list LogArg) (env : LogEnv) :
  (emitted (env_configs env) level args = "" /\ Log level args env = env)
  \/ (emitted (env_configs env) level args = line level args
      /\ Log level args env
         = put_stream env (GetLogStream env +:+ line level args)).
Proof.
  unfold emitted.
  destruct (Z.ltb_spec (level_value level)
              (GetConfig LOG_LEVEL (env_configs env))) as [Hlt | Hge].
  - left. split; [reflexivity |]. apply Log_filtered. now right.
  - destruct (decide (level = LOG_NONE)) as [-> | Hl].
    + left. split; [reflexivity |]. apply Log_filtered. now left.
    + right. split; [destruct level; congruence |].
      now apply Log_passes.
Qed.

Lemma Log_stream (level : LogLevel) (args : list LogArg) (env : LogEnv) :
  GetLogStream (Log level args env)
  = GetLogStream env +:+ emitted (env_configs env) level args.
Proof.
  destruct (Log_cases level args env) as [[-> ->] | [-> ->]].
  - now rewrite append_empty_r.
  - apply GetLogStream_put_stream.
Qed.

(** X7.  A [Log] call only ever appends, and to one sink: the selected
    stream afterwards is what it held followed by the emitted line (or by
    nothing); the option table is untouched; with an open log file
    [std::cout] is untouched, and without one the file stream is. *)
Theorem Log_appends_to_one_sink (level : LogLevel) (args : list LogArg)
    (env : LogEnv) :
  GetLogStream (Log level args env)
  = GetLogStream env +:+ emitted (env_configs env) level args
  /\ env_configs (Log level args env) = env_configs env
  /\ (forall f, log_file_stream env = Some f -> is_open f = true ->
      cout (Log level args env) = cout env
      /\ log_file_stream (Log level args env)
         = Some {| is_open := true;
                   written :=
                     written f +:+ emitted (env_configs env) level args |})
  /\ (log_file_stream env = None
      \/ (exists f, log_file_stream env = Some f /\ is_open f = false) ->
      log_file_stream (Log level args env) = log_file_stream env
      /\ cout (Log level args env)
         = cout env +:+ emitted (env_configs env) level args).
Proof.
  split; [apply Log_stream |].
  split; [apply Log_configs |].
  split.
  - intros f Hf Ho.
    assert (Hs : GetLogStream env = written f)
      by (unfold GetLogStream; now rewrite Hf, Ho).
    destruct (Log_cases level args env) as [[-> ->] | [-> ->]].
    + rewrite append_empty_r, Hf. destruct f as [o w]. simpl in *.
      now subst o.
    + rewrite (put_stream_open env f _ Hf Ho), Hs. now split.
  - intros Hc.
    assert (Hs : GetLogStream env = cout env).
    { unfold GetLogStream.
      destruct Hc as [-> | (f & -> & ->)]; reflexivity. }
    destruct (Log_cases level args env) as [[-> ->] | [-> ->]].
    + now rewrite append_empty_r.
    + rewrite (put_stream_cout env _ Hc), Hs. now split.
Qed.

(** X8.  [SetConfig(LOG_LEVEL, n)] followed by [Log]: the call writes if
    and only if its level is not [LOG_NONE] and is at least [n] reduced
    modulo 2^16.  So [n = 65536] lets every message through, like 0, and
    [n = -1] lets none through. *)
Theorem SetConfig_LOG_LEVEL_gates_Log (cfg : list Z) (n : Z)
    (level : LogLevel) (args : list LogArg) (env : LogEnv) :
  length cfg = CONFIG_MAX ->
  env_configs env = SetConfig LOG_LEVEL n cfg ->
  (GetLogStream (Log level args env) <> GetLogStream env
   <-> level <> LOG_NONE /\ n mod 2 ^ 16 <= level_value level).
Proof.
  intros Hlen Henv.
  rewrite Log_stream.
  assert (Hcfg : GetConfig LOG_LEVEL (env_configs env) = n mod 2 ^ 16).
  { rewrite Henv. now apply GetConfig_SetConfig_eq. }
  rewrite <- Hcfg, <- emitted_nonempty.
  split.
  - intros Hne He. apply Hne. rewrite He. apply append_empty_r.
  - intros Hne Heq. apply Hne. now apply append_eq_self in Heq.
Qed.

(** X9.  The configured level is a lower bound, not a switch: at 0 (the
    value of [LOG_NONE]) every [LOG_INFO] and [LOG_ERROR] call writes its
    line; up to 2 every [LOG_ERROR] call does; only above 2 is every call
    silent. *)
Theorem Log_level_is_lower_bound (args : list LogArg) (env : LogEnv) :
  (GetConfig LOG_LEVEL (env_configs env) = 0 ->
   GetLogStream (Log LOG_INFO args env)
   = GetLogStream env +:+ "Info: " +:+ render args +:+ endl
   /\ GetLogStream (Log LOG_ERROR args env)
      = GetLogStream env +:+ "Error: " +:+ render args +:+ endl)
  /\ (GetConfig LOG_LEVEL (env_configs env) <= 2 ->
      GetLogStream (Log LOG_ERROR args env)
      = GetLogStream env +:+ "Error: " +:+ render args +:+ endl)
  /\ (2 < GetConfig LOG_LEVEL (env_configs env) ->
      forall level, Log level args env = env).
Proof.
  split; [| split].
  - intros H0. split.
    + rewrite Log_passes by (simpl; first [discriminate | lia]).
      apply GetLogStream_put_stream.
    + rewrite Log_passes by (simpl; first [discriminate | lia]).
      apply GetLogStream_put_stream.
  - intros H2. rewrite Log_passes by (simpl; first [discriminate | lia]).
    apply GetLogStream_put_stream.
  - intros H3 level. apply Log_filtered. right.
    destruct level; simpl; lia.
Qed.

Lemma Log_all_configs (msgs : list (LogLevel * list LogArg))
    (env : LogEnv) :
  env_configs (Log_all msgs env) = env_configs env.
Proof.
  revert env. induction msgs as [| m rest IH]; intros env.
  - reflexivity.
  - change (Log_all (m :: rest) env)
      with (Log_all rest (Log (fst m) (snd m) env)).
    rewrite IH. apply Log_configs.
Qed.

(** X10.  Calls in sequence add up: after any list of [Log] calls the
    selected stream holds what it held before, followed by the lines of
    the calls that pass the filter, in call order; nothing is lost or
    reordered. *)
Theorem Log_all_transcript (msgs : list (LogLevel * list LogArg))
    (env : LogEnv) :
  GetLogStream (Log_all msgs env)
  = GetLogStream env +:+ transcript (env_configs env) msgs
  /\ env_configs (Log_all msgs env) = env_configs env.
Proof.
  split; [| apply Log_all_configs].
  revert env. induction msgs as [| m rest IH]; intros env.
  - simpl. now rewrite append_empty_r.
  - change (Log_all (m :: rest) env)
      with (Log_all rest (Log (fst m) (snd m) env)).
    rewrite IH, Log_stream, Log_configs. simpl.
    now rewrite append_assoc.
Qed.

(** X11.  [LogStats] is not gated by [LOG_LEVEL]: whatever the option
    table holds, it appends "Stats:", a line feed, the arguments and the
    end of line to the selected stream, and leaves the table alone. *)
Theorem LogStats_ignores_level (args : list LogArg) (env : LogEnv) :
  GetLogStream (LogStats args env)
  = GetLogStream env +:+ "Stats:" +:+ newline +:+ render args +:+ endl
  /\ GetLogStream (LogStats args env) <> GetLogStream env
  /\ env_configs (LogStats args env) = env_configs env.
Proof.
  assert (H : GetLogStream (LogStats args env)
              = GetLogStream env
                +:+ "Stats:" +:+ newline +:+ render args +:+ endl).
  { unfold LogStats. rewrite GetLogStream_put_stream, LogImpl_render.
    now rewrite !append_assoc. }
  split; [exact H |].
  split.
  - rewrite H. intros Heq. apply append_eq_self in Heq. discriminate Heq.
  - unfold LogStats. apply put_stream_configs.
Qed.

(** X12.  After [CloseLogFile] the log stream is [std::cout], whatever was
    open before: the next [Log] call appends its line there and no file
    stream comes back.  Closing twice is closing once. *)
Theorem CloseLogFile_selects_cout (level : LogLevel) (args : list LogArg)
    (env : LogEnv) :
  GetLogStream (CloseLogFile env) = cout env
  /\ cout (Log level args (CloseLogFile env))
     = cout env +:+ emitted (env_configs env) level args
  /\ log_file_stream (Log level args (CloseLogFile env)) = None
  /\ CloseLogFile (CloseLogFile env) = CloseLogFile env.
Proof.
  split; [reflexivity |].
  destruct (Log_cases level args (CloseLogFile env)) as [[He ->] | [He ->]];
    simpl in He; rewrite He.
  - rewrite append_empty_r. repeat split.
  - repeat split.
Qed.

(** X13.  [CreateLogFile] redirects the log only when the file opens: then
    the next [Log] call writes its line to the new stream and leaves
    [std::cout] alone; when the open fails the line is not lost, it goes
    to [std::cout].  A second [CreateLogFile] drops the first stream from
    the state. *)
Theorem CreateLogFile_then_Log (opens : string -> bool)
    (file_name other_name : string) (level : LogLevel)
    (args : list LogArg) (env : LogEnv) :
  (opens file_name = true ->
   log_file_stream (Log level args (CreateLogFile opens file_name env))
   = Some {| is_open := true;
             written := emitted (env_configs env) level args |}
   /\ cout (Log level args (CreateLogFile opens file_name env))
      = cout env)
  /\ (opens file_name = false ->
      cout (Log level args (CreateLogFile opens file_name env))
      = cout env +:+ emitted (env_configs env) level args
      /\ log_file_stream
           (Log level args (CreateLogFile opens file_name env))
         = Some {| is_open := false; written := "" |})
  /\ CreateLogFile opens file_name
       (CreateLogFile opens other_name env)
     = CreateLogFile opens file_name env.
Proof.
  split; [| split; [| reflexivity]].
  - intros Ho.
    destruct (Log_cases level args (CreateLogFile opens file_name env))
      as [[He ->] | [He ->]]; simpl in He; rewrite He;
      unfold CreateLogFile, put_stream, GetLogStream; simpl;
      rewrite Ho; simpl; now split.
  - intros Ho.
    destruct (Log_cases level args (CreateLogFile opens file_name env))
      as [[He ->] | [He ->]]; simpl in He; rewrite He;
      unfold CreateLogFile, put_stream, GetLogStream; simpl;
      rewrite Ho; simpl; rewrite ?append_empty_r; now split.
Qed.

End LogSinkFacts.

Section LogSinkRuns.
Import config logging.

(** [SetConfig(LOG_LEVEL, 65536)] on the default table lets a [LOG_INFO]
    message through. *)
Lemma SetConfig_LOG_LEVEL_gates_Log_wrap :
  (length default_configs = CONFIG_MAX
   /\ env_configs (sample_env 65536)
      = SetConfig LOG_LEVEL 65536 default_configs)
  /\ GetLogStream (Log LOG_INFO [Text "x"] (sample_env 65536))
     <> GetLogStream (sample_env 65536).
Proof.
  split; [split; reflexivity |].
  apply (SetConfig_LOG_LEVEL_gates_Log default_configs 65536 LOG_INFO
           [Text "x"] (sample_env 65536) eq_refl eq_refl).
  split; [discriminate | vm_compute; congruence].
Defined.

End LogSinkRuns.

(** ** logging.h: the deflate block header *)

Section HeaderFieldFacts.
Import config logging.
Context {CompressedFormat : Type} `{!HeaderFormat CompressedFormat}.

Lemma header_fields_of_byte (b : byte) :
  let v := Z.of_N (Byte.to_N b) in
  bfinal_of v = v mod 2 /\ btype_of v = v / 2 mod 4.
Proof. destruct b; split; reflexivity. Qed.

(** X14.  Whatever the buffer holds at the offset, the logged bfinal is 0
    or 1 and the logged btype is between 0 and 3 (the reserved type 3 is
    logged like the others), and together they are the low three bits of
    the byte: the five high bits have no influence. *)
Theorem header_fields_low_three_bits (data : list byte) (i : Z) :
  let v := byte_at data i in
  0 <= bfinal_of v <= 1
  /\ 0 <= btype_of v <= 3
  /\ bfinal_of v + 2 * btype_of v = v mod 8.
Proof.
  unfold byte_at.
  destruct (data !! Z.to_nat i) as [b |]; simpl.
  - destruct b; vm_compute; repeat split; congruence.
  - vm_compute. repeat split; congruence.
Qed.

Lemma render_app (xs ys : list LogArg) :
  render (xs ++ ys) = render xs +:+ render ys.
Proof.
  induction xs as [| a xs IH]; [reflexivity |].
  simpl. now rewrite IH, append_assoc.
Qed.

(** X15.  When the level passes the filter and [len] exceeds the header
    length, the function appends exactly one line to the selected stream:
    the level's prefix, "Deflate block header bfinal=", bit 0 of the byte
    at the offset, ", btype=", bits 1-2 of that byte, a line feed, the
    extra arguments, and the end of line (so two line feeds end the
    output when there are no extra arguments). *)
Theorem PrintDeflateBlockHeader_line (level : LogLevel) (data : list byte)
    (len window_bits : Z) (args : list LogArg) (env : LogEnv) (b : byte) :
  level <> LOG_NONE ->
  GetConfig LOG_LEVEL (env_configs env) <= level_value level ->
  0 <= GetHeaderLength (GetCompressedFormat window_bits) < 2 ^ 32 - 1 ->
  GetHeaderLength (GetCompressedFormat window_bits) < len < 2 ^ 32 ->
  data !! Z.to_nat (GetHeaderLength (GetCompressedFormat window_bits))
  = Some b ->
  GetLogStream
    (fst (PrintDeflateBlockHeader level data len window_bits args env))
  = GetLogStream env
    +:+ prefix_of level
    +:+ "Deflate block header bfinal="
    +:+ show_int (Z.of_N (Byte.to_N b) mod 2)
    +:+ ", btype="
    +:+ show_int (Z.of_N (Byte.to_N b) / 2 mod 4)
    +:+ newline +:+ render args +:+ endl.
Proof.
  intros Hl Hc Hh Hlen Hb.
  unfold PrintDeflateBlockHeader.
  set (header_length := GetHeaderLength (GetCompressedFormat window_bits))
    in *.
  destruct (Z.ltb_spec (level_value level)
              (GetConfig LOG_LEVEL (env_configs env))) as [Hlt | _]; [lia |].
  rewrite (to_uint32_small header_length) by lia.
  rewrite (to_uint32_small (header_length + 1)) by lia.
  destruct (Z.geb_spec len (header_length + 1)) as [_ | Hlt]; [| lia].
  simpl fst.
  rewrite Log_passes by assumption.
  rewrite GetLogStream_put_stream.
  unfold line, header_message. rewrite render_app.
  rewrite (byte_at_lookup data header_length b Hb).
  destruct (header_fields_of_byte b) as [-> ->].
  simpl. now rewrite append_empty_r, !append_assoc.
Qed.

(** X16.  A call whose level is [LOG_NONE] or lies below the configured
    level changes nothing and does not look at the buffer: whatever
    [data], [len] and the window bits are, the environment and the buffer
    come back as they were. *)
Theorem PrintDeflateBlockHeader_filtered (level : LogLevel)
    (data : list byte) (len window_bits : Z) (args : list LogArg)
    (env : LogEnv) :
  level = LOG_NONE
  \/ level_value level < GetConfig LOG_LEVEL (env_configs env) ->
  PrintDeflateBlockHeader level data len window_bits args env
  = (env, data).
Proof.
  intros Hf. unfold PrintDeflateBlockHeader.
  destruct (_ <? _); [reflexivity |].
  destruct (_ >=? _); [| reflexivity].
  now rewrite Log_filtered.
Qed.

End HeaderFieldFacts.

Section HeaderFieldRuns.
Import config logging.

(** The buffer [{0x78, 0x9C, 0x06}] with window bits 15 at level
    [LOG_INFO]: bfinal 0, btype 3. *)
Lemma PrintDeflateBlockHeader_line_sample :
  (LOG_INFO <> LOG_NONE
   /\ GetConfig LOG_LEVEL (env_configs (sample_env 1))
      <= level_value LOG_INFO
   /\ 0 <= GetHeaderLength (GetCompressedFormat 15) < 2 ^ 32 - 1
   /\ GetHeaderLength (GetCompressedFormat 15) < 3 < 2 ^ 32
   /\ [x78; x9c; x06] !! Z.to_nat (GetHeaderLength (GetCompressedFormat 15))
      = Some x06)
  /\ GetLogStream
       (fst (PrintDeflateBlockHeader LOG_INFO [x78; x9c; x06] 3 15 []
               (sample_env 1)))
     = "Info: Deflate block header bfinal=0, btype=3" +:+ newline
       +:+ newline.
Proof.
  split; [vm_compute; repeat split; congruence |].
  rewrite (PrintDeflateBlockHeader_line (CompressedFormat := SampleFormat)
             LOG_INFO [x78; x9c; x06] 3 15 [] (sample_env 1) x06);
    [reflexivity | discriminate | vm_compute; congruence
    | vm_compute; split; congruence | vm_compute; split; congruence
    | reflexivity].
Defined.

Lemma PrintDeflateBlockHeader_filtered_sample :
  (LOG_INFO = LOG_NONE
   \/ level_value LOG_INFO
      < GetConfig LOG_LEVEL (env_configs (sample_env 2)))
  /\ PrintDeflateBlockHeader LOG_INFO [x78; x9c; x06] 3 15 []
       (sample_env 2)
     = (sample_env 2, [x78; x9c; x06]).
Proof.
  assert (H : LOG_INFO = LOG_NONE
              \/ level_value LOG_INFO
                 < GetConfig LOG_LEVEL (env_configs (sample_env 2)))
    by (right; reflexivity).
  split; [exact H |].
  apply (PrintDeflateBlockHeader_filtered (CompressedFormat := SampleFormat)).
  exact H.
Defined.

End HeaderFieldRuns.

(** ** zlib_accel.h against config.h *)

Section ConfigTagFacts.

(** X17.  The public tags of zlib_accel.h and the options of config.h are
    numbered differently: a tag has the number of the option of its name
    only for [USE_ZLIB_COMPRESS] and [USE_ZLIB_UNCOMPRESS].  A tag's
    number used as an index of [configs] addresses another option for the
    six other tags ([LOG_LEVEL], 7, is the slot of
    [IAA_UNCOMPRESS_PERCENTAGE]). *)
Theorem ConfigTag_numbering (t : zlib_accel.ConfigTag) :
  (zlib_accel.tag_value t = config.index (zlib_accel.same_named_option t)
   <-> t = zlib_accel.USE_ZLIB_COMPRESS
       \/ t = zlib_accel.USE_ZLIB_UNCOMPRESS)
  /\ (zlib_accel.tag_value t < config.CONFIG_MAX)%nat
  /\ zlib_accel.tag_value zlib_accel.LOG_LEVEL
     = config.index config.IAA_UNCOMPRESS_PERCENTAGE.
Proof.
  split; [| split; [| reflexivity]].
  - destruct t; simpl; split;
      first [ intros H; discriminate H
            | intros [H | H]; discriminate H
            | intros _; auto ].
  - destruct t; unfold config.CONFIG_MAX; simpl; lia.
Qed.

End ConfigTagFacts.
